(** * smallsh: a shallow embedding of the shell and its checked properties

    The development follows [smallsh.c] function by function.  The shell
    is a single-threaded loop, so it is embedded as a deterministic
    function of its environment: the text that its reads of standard input
    deliver and, for every loop iteration, what the operating system
    answers to [fork], [open], [dup2], [execvp] and [waitpid].  Everything the shell
    does that is visible from outside (text written, processes created,
    children collected, its own termination) is recorded as a list of
    events in the order in which it happens. *)

From Stdlib Require Import ZArith List String Ascii Bool Lia DecimalString.
From Stdlib Require Import Permutation.
Import ListNotations.

Local Open Scope string_scope.
Local Open Scope Z_scope.

(** ** The C library as the shell uses it *)

Module Libc.

(** The newline character and the one-character string made of it. *)
Definition LF : ascii := "010"%char.
Definition nl : string := String LF "".

(** [printf("%d", n)]. *)
Definition fmt_d (n : Z) : string := NilZero.string_of_int (Z.to_int n).

(** The delimiter set [" \n"] handed to every [strtok] call. *)
Definition is_delim (c : ascii) : bool :=
  (c =? " ")%char || (c =? LF)%char.

(** [strtok_from s cur]: the tokens still to be handed out when the scan
    stands in front of [s] and has already collected the characters
    [cur] of the current token. *)
Fixpoint strtok_from (s cur : string) : list string :=
  match s with
  | EmptyString => if (cur =? "")%string then [] else [cur]
  | String c rest =>
      if is_delim c
      then if (cur =? "")%string
           then strtok_from rest ""
           else cur :: strtok_from rest ""
      else strtok_from rest (cur ++ String c "")
  end.

(** The string a buffer holds for the functions of [<string.h>]: the
    characters in front of the first NUL. *)
Fixpoint c_string (buffer : string) : string :=
  match buffer with
  | EmptyString => ""
  | String c rest =>
      if (c =? "000")%char then "" else String c (c_string rest)
  end.

(** The successive results of [strtok(input, " \n")],
    [strtok(NULL, " \n")], ... up to the first [NULL]: the maximal runs
    of characters of the string in [input] that are neither a space nor a
    newline.  Once the list is used up every further call returns
    [NULL]. *)
Definition strtok (input : string) : list string :=
  strtok_from (c_string input) "".

(** [fgets_from n s]: read from the stream [s] until [n] characters are
    stored, a newline has been stored, or the stream ends; the result is
    the text stored and the rest of the stream. *)
Fixpoint fgets_from (n : nat) (s : string) : string * string :=
  match n, s with
  | O, _ => ("", s)
  | _, EmptyString => ("", "")
  | S n', String c rest =>
      if (c =? LF)%char then (String c "", rest)
      else let (line, rest') := fgets_from n' rest in (String c line, rest')
  end.

(** [fgets(buf, size, stdin)]: at most [size - 1] characters; [None] is
    the [NULL] returned at end of file when nothing was read. *)
Definition fgets (size : nat) (stream : string) : option (string * string) :=
  match stream with
  | EmptyString => None
  | _ => Some (fgets_from (Nat.pred size) stream)
  end.

(** *** Wait statuses

    The status word written by [waitpid] and the macros of
    [<sys/wait.h>] that read it, with the encoding of Linux and glibc
    ([bits/waitstatus.h]): the low seven bits hold the terminating
    signal (zero for a normal exit), bit 7 the core-dump flag and bits
    8 to 15 the exit code. *)
Definition WTERMSIG (s : Z) : Z := Z.land s 127.
Definition WIFEXITED (s : Z) : bool := WTERMSIG s =? 0.
Definition WEXITSTATUS (s : Z) : Z := Z.shiftr (Z.land s 65280) 8.
Definition WCOREDUMP (s : Z) : bool := negb (Z.land s 128 =? 0).
(** [((signed char) ((s & 0x7f) + 1) >> 1) > 0]: the sum is at most 128,
    and 128 is the only value that the cast to [signed char] makes
    negative. *)
Definition WIFSIGNALED (s : Z) : bool :=
  let t := WTERMSIG s + 1 in
  0 <? Z.shiftr (if t =? 128 then -128 else t) 1.

(** How the kernel builds the word: [W_EXITCODE(ret, sig)], and the
    core-dump flag [__WCOREFLAG]. *)
Definition W_EXITCODE (ret sig : Z) : Z := Z.lor (Z.shiftl ret 8) sig.
Definition WCOREFLAG : Z := 128.

(** How a process ends, and the status word its parent collects. *)
Inductive termination :=
| Exited (code : Z)
| Signaled (sig : Z) (core : bool).

Definition wait_status (t : termination) : Z :=
  match t with
  | Exited code => W_EXITCODE (Z.land code 255) 0
  | Signaled sig core =>
      Z.lor (W_EXITCODE 0 sig) (if core then WCOREFLAG else 0)
  end.

(** [exit(n)]: the parent sees the low eight bits only. *)
Definition exit_code (n : Z) : Z := Z.land n 255.

End Libc.

(** ** The shell *)

Module Smallsh.
Import Libc.

(** *** The two versions of the program

    [src/smallsh.c] and [src/unnamed/part_000] are the same program up
    to three places of [handle_fork_exec]; the embedding is written once
    and takes the three places from a [variant]. *)
Record variant := {
  out_mode : Z;        (* third argument of open() for the output file *)
  report_fg : bool;    (* get_status(status) after the foreground waitpid *)
  bg_word : string     (* first word of the "process id number" line *)
}.

(** [smallsh.c]: mode [0744], no report, ["background process id number"]. *)
Definition smallsh_c : variant :=
  {| out_mode := 484; report_fg := false; bg_word := "background" |}.

(** [part_000]: mode [0644], report, ["Background process id number"]. *)
Definition part_000 : variant :=
  {| out_mode := 420; report_fg := true; bg_word := "Background" |}.

(** *** Behaviour the C standard leaves undefined *)
Inductive fault :=
| StrcpyNull          (* strcpy(dst, NULL): strtok had no token left *)
| BufferOverflow      (* strcpy of a token longer than its buffer *)
| IndexOutOfBounds    (* commands[i] with i beyond the 513 entries *)
| UninitialisedArgv.  (* commands[1..] read without having been written *)

(** *** get_status *)
Definition get_status (status : Z) : list string :=
  if WIFEXITED status
  then [ "The process exited normally" ++ nl;
         "The exit status was " ++ fmt_d (WEXITSTATUS status) ++ nl ]
  else [ "The process was terminated by a signal " ++ fmt_d status ++ nl ].

(** *** The tokenizing loop of run_shell

    [args] is [commands[0..i-1]], so [i] is its length.  The buffers are
    those of [run_shell]: 513 strings of 513 bytes for [commands], 100
    bytes for each file name.  Both file names are the empty string when
    the loop starts: the [memset] calls clear their first bytes. *)
Record cmdline := {
  args : list string;
  output_filename : string;
  input_filename : string;
  fg : bool
}.

Definition COMMANDS : nat := 513.
Definition STRINGSIZE : nat := 513.
Definition FILENAME : nat := 100.

Definition fits (buffer : nat) (s : string) : bool :=
  (String.length s <? buffer)%nat.

Definition fresh_cmdline : cmdline :=
  {| args := []; output_filename := ""; input_filename := ""; fg := true |}.

Fixpoint tokenize (toks : list string) (c : cmdline) : fault + cmdline :=
  match toks with
  | [] => inr c
  | tok :: rest =>
      if (tok =? ">")%string then
        match rest with
        | [] => inl StrcpyNull
        | name :: rest' =>
            if fits FILENAME name
            then tokenize rest'
                   {| args := args c; output_filename := name;
                      input_filename := input_filename c; fg := fg c |}
            else inl BufferOverflow
        end
      else if (tok =? "<")%string then
        match rest with
        | [] => inl StrcpyNull
        | name :: rest' =>
            if fits FILENAME name
            then tokenize rest'
                   {| args := args c; output_filename := output_filename c;
                      input_filename := name; fg := fg c |}
            else inl BufferOverflow
        end
      else if (tok =? "&")%string then
        inr {| args := args c; output_filename := output_filename c;
               input_filename := input_filename c; fg := false |}
      else if (COMMANDS <=? List.length (args c))%nat then inl IndexOutOfBounds
      else if fits STRINGSIZE tok
      then tokenize rest
             {| args := (args c ++ [tok])%list; output_filename := output_filename c;
                input_filename := input_filename c; fg := fg c |}
      else inl BufferOverflow
  end.

(** The loop, then [if (i != 0) commands[i] = NULL;]: the store is
    outside the array when all 513 entries hold an argument. *)
Definition read_command (input : string) : fault + cmdline :=
  match tokenize (strtok input) fresh_cmdline with
  | inl f => inl f
  | inr c =>
      if (COMMANDS <=? List.length (args c))%nat
      then inl IndexOutOfBounds
      else inr c
  end.

(** *** The child side of handle_fork_exec *)
Inductive oflag := O_RDONLY | O_WRONLY | O_CREAT | O_TRUNC.

Record open_call := {
  o_path : string;
  o_flags : list oflag;
  o_mode : option Z
}.

(** What the system answers to the child. *)
Record sysenv := {
  open_ok : string -> list oflag -> bool;   (* open() returns a descriptor *)
  dup2_ok : Z -> bool;                      (* dup2(fd, n) succeeds *)
  execvp_ok : string -> bool                (* execvp() starts the program *)
}.

(** The child between [fork] and its last call: the disposition it has
    given SIGINT, the [open] calls it has made, and the files it has put
    on descriptors 0 and 1 ([None]: the descriptor inherited from the
    shell). *)
Record child_state := {
  sigint_default : bool;
  opened : list open_call;
  on_stdin : option string;
  on_stdout : option string
}.

Inductive child_end :=
| ChildExit (code : Z) (diagnostic : string)   (* fprintf(stderr, ..); exit(code) *)
| ChildExec (argv : list string).              (* execvp(commands[0], commands) *)

Record child_run := {
  setup : child_state;
  ending : child_end
}.

Definition opening (call : open_call) (s : child_state) : child_state :=
  {| sigint_default := sigint_default s; opened := (opened s ++ [call])%list;
     on_stdin := on_stdin s; on_stdout := on_stdout s |}.

Definition with_stdin (path : string) (s : child_state) : child_state :=
  {| sigint_default := sigint_default s; opened := opened s;
     on_stdin := Some path; on_stdout := on_stdout s |}.

Definition with_stdout (path : string) (s : child_state) : child_state :=
  {| sigint_default := sigint_default s; opened := opened s;
     on_stdin := on_stdin s; on_stdout := Some path |}.

(** [fd = open(..)], [dup2(fd, newfd)], [close(fd)]; a failure prints
    its message and calls [exit(1)]. *)
Definition redirect (sys : sysenv) (call : open_call) (newfd : Z)
    (open_msg dup2_msg : string) (install : child_state -> child_state)
    (s : child_state) : child_run + child_state :=
  let s1 := opening call s in
  if negb (open_ok sys (o_path call) (o_flags call))
  then inl {| setup := s1; ending := ChildExit 1 open_msg |}
  else if negb (dup2_ok sys newfd)
  then inl {| setup := s1; ending := ChildExit 1 dup2_msg |}
  else inr (install s1).

(** The variable [to_open]. *)
Definition to_open (c : cmdline) : option string :=
  if fg c
  then if (input_filename c =? "")%string then None
       else Some (input_filename c)
  else Some "/dev/null".

Definition child_side (v : variant) (sys : sysenv) (c : cmdline) : child_run :=
  let s0 := {| sigint_default := fg c; opened := [];
               on_stdin := None; on_stdout := None |} in
  let input_done :=
    match to_open c with
    | None => inr s0
    | Some path =>
        redirect sys
          {| o_path := path; o_flags := [O_RDONLY]; o_mode := None |} 0
          ("Error opening input file" ++ nl)
          ("Error redirecting the input" ++ nl)
          (with_stdin path) s0
    end in
  match input_done with
  | inl failed => failed
  | inr s1 =>
      let output_done :=
        if (output_filename c =? "")%string then inr s1
        else
          redirect sys
            {| o_path := output_filename c;
               o_flags := [O_WRONLY; O_CREAT; O_TRUNC];
               o_mode := Some (out_mode v) |} 1
            ("Error opening output file" ++ nl)
            ("Error redirecting the output" ++ nl)
            (with_stdout (output_filename c)) s1 in
      match output_done with
      | inl failed => failed
      | inr s2 =>
          if execvp_ok sys (hd "" (args c))
          then {| setup := s2; ending := ChildExec (args c) |}
          else {| setup := s2;
                  ending := ChildExit 1
                    ("smallsh did not recognize the command: "
                       ++ hd "" (args c) ++ nl) |}
      end
  end.

(** *** The shell process and its environment *)

(** A child the shell has forked and not yet collected.  [will_end] is
    the status word [waitpid] will deliver for it, [None] for a process
    that never terminates. *)
Record child_proc := {
  c_pid : positive;
  will_end : option Z
}.

(** The variables of [run_shell] that live across iterations, and the
    children of the process.  [commands0] is the text in the buffer
    [commands[0]]. *)
Record shell := {
  status : Z;
  commands0 : string;
  children : list child_proc
}.

(** What the environment contributes to one iteration of the loop:
    the answer to [fork] (the new process identifier and how the program
    run by [execvp] ends, or [None] when [fork] returns a negative
    value), the answers to the child's system calls, and the children
    that have terminated by the time the iteration polls with
    [waitpid(-1, status, WNOHANG)], in the order in which the system
    hands them out. *)
Record tick := {
  t_fork : option (positive * option termination);
  t_sys : sysenv;
  t_finished : list positive
}.

Inductive event :=
| EvOut (text : string)                        (* printf *)
| EvErr (text : string)                        (* fprintf(stderr, ...) of the shell *)
| EvFork (pid : positive) (spec : cmdline) (c : child_run)   (* fork returned pid *)
| EvWaitFg (pid : positive) (ws : Z)           (* waitpid(pid, status, 0) returned *)
| EvReap (pid : positive) (ws : Z)             (* waitpid(-1, status, WNOHANG) returned pid *)
| EvChdir (path : option string)               (* chdir; None: getenv("HOME") *)
| EvExit (code : Z).                           (* exit *)

(** How the shell ends. *)
Inductive result :=
| Exits (code : Z) (left : list child_proc)    (* exit(); [left]: children never collected *)
| Blocked (pid : positive)                     (* waitpid(pid, status, 0) never returns *)
| Undefined (f : fault).

(** Where a run of the shell stands when the environment given to it is
    used up. *)
Inductive progress :=
| Ended (r : result)
| Prompting (st : shell) (stdin : string).     (* in front of the next prompt *)

(** The status word of a child: [exit(1)] in the child, or the end of
    the program it executes. *)
Definition child_status (c : child_run) (prog : option termination) : option Z :=
  match ending c with
  | ChildExit code _ => Some (wait_status (Exited code))
  | ChildExec _ => option_map wait_status prog
  end.

(** [take pid l]: the first child with this identifier, and the others. *)
Fixpoint take (pid : positive) (l : list child_proc)
    : option (child_proc * list child_proc) :=
  match l with
  | [] => None
  | c :: rest =>
      if (c_pid c =? pid)%positive then Some (c, rest)
      else match take pid rest with
           | Some (found, others) => Some (found, c :: others)
           | None => None
           end
  end.

(** *** wait_for_children

    [waitpid(-1, status, WNOHANG)] returns a child identifier as long as
    a terminated child is left, and stores its status word; it returns
    0 or -1 otherwise and leaves [*status] alone.  The terminated
    children are those of [finished] that are children of the shell and
    do terminate. *)
Fixpoint wait_for_children (finished : list positive) (st : shell)
    : list event * shell :=
  match finished with
  | [] => ([], st)
  | pid :: more =>
      match take pid (children st) with
      | Some ({| c_pid := _; will_end := Some ws |}, others) =>
          let (evs, st') :=
            wait_for_children more
              {| status := ws; commands0 := commands0 st; children := others |} in
          (EvReap pid ws
             :: EvOut ("Background process " ++ fmt_d (Zpos pid) ++ " closed" ++ nl)
             :: (map EvOut (get_status ws) ++ evs)%list,
           st')
      | _ => wait_for_children more st
      end
  end.

(** *** exit_shell *)
Definition exit_shell (finished : list positive) (st : shell)
    : list event * result :=
  let (evs, st') := wait_for_children finished st in
  ((evs ++ [EvExit (exit_code (status st'))])%list,
   Exits (exit_code (status st')) (children st')).

(** One pass through the body of the loop either reaches the end of the
    body or ends the run. *)
Inductive outcome :=
| Continue (st : shell)
| Stop (r : result).

(** *** The parent side of handle_fork_exec *)
Definition handle_fork_exec (v : variant) (t : tick) (c : cmdline) (st : shell)
    : list event * outcome :=
  match t_fork t with
  | None =>
      let (evs, r) :=
        exit_shell (t_finished t)
          {| status := 1; commands0 := commands0 st; children := children st |} in
      (EvErr ("error in fork" ++ nl) :: evs, Stop r)
  | Some (pid, prog) =>
      let run := child_side v (t_sys t) c in
      let born := {| c_pid := pid; will_end := child_status run prog |} in
      if fg c then
        match take pid (born :: children st) with
        | Some ({| c_pid := _; will_end := Some ws |}, others) =>
            (EvFork pid c run :: EvWaitFg pid ws
               :: (if report_fg v then map EvOut (get_status ws) else []),
             Continue {| status := ws; commands0 := commands0 st;
                         children := others |})
        | _ => ([EvFork pid c run], Stop (Blocked pid))
        end
      else
        ([EvFork pid c run;
          EvOut (bg_word v ++ " process id number " ++ fmt_d (Zpos pid) ++ nl)],
         Continue {| status := status st; commands0 := commands0 st;
                     children := born :: children st |})
  end.

(** *** change_directory *)
Definition change_directory (rest : list string) : list event :=
  match rest with
  | [] => [EvChdir None]
  | dir :: _ => [EvChdir (Some dir)]
  end.

Definition starts_with_hash (s : string) : bool :=
  match s with
  | String c _ => (c =? "#")%char
  | EmptyString => false
  end.

(** *** The body of the loop of run_shell, after prompt()

    [commands[0]] is the first argument when the line has one, and the
    text left in the buffer otherwise; without an argument the entries
    [commands[1..]] are fresh from [malloc]. *)
Definition dispatch (v : variant) (t : tick) (c : cmdline) (st : shell)
    : list event * outcome :=
  let first := match args c with [] => commands0 st | a :: _ => a end in
  if (first =? "")%string || (first =? nl)%string then ([], Continue st)
  else if starts_with_hash first then ([], Continue st)
  else if (first =? "cd")%string then
    match args c with
    | [] => ([], Stop (Undefined UninitialisedArgv))
    | _ :: rest => (change_directory rest, Continue st)
    end
  else if (first =? "status")%string then
    (map EvOut (get_status (status st)), Continue st)
  else if (first =? "exit")%string then
    let (evs, r) := exit_shell (t_finished t) st in (evs, Stop r)
  else
    match args c with
    | [] => ([], Stop (Undefined UninitialisedArgv))
    | _ :: _ => handle_fork_exec v t c st
    end.

(** *** reset_command_array

    The array is freed and allocated again, and the [memset] in the loop
    clears [new_array[0]] (513 times): [commands[0]] is the empty string,
    the other strings are as [malloc] returns them. *)
Definition reset_command_array (st : shell) : shell :=
  {| status := status st; commands0 := ""; children := children st |}.

(** The body: tokenizing, dispatch, [wait_for_children], and
    [reset_command_array]. *)
Definition body (v : variant) (t : tick) (input : string) (st : shell)
    : list event * outcome :=
  match read_command input with
  | inl f => ([], Stop (Undefined f))
  | inr c =>
      match dispatch v t c st with
      | (evs, Continue st1) =>
          let (reaped, st2) := wait_for_children (t_finished t) st1 in
          ((evs ++ reaped)%list, Continue (reset_command_array st2))
      | stopped => stopped
      end
  end.

(** *** prompt

    [printf(": ")], then [fgets(input, 2049, stdin)]; [None] when [fgets]
    returns [NULL] and [prompt] calls [exit(0)]. *)
Definition PROMPT : event := EvOut ": ".

Definition prompt (stdin : string) : option (string * string) :=
  fgets 2049 stdin.

(** *** The loop of run_shell

    One [tick] of environment per iteration; the run is followed until
    the shell ends or the ticks are used up.

    [stdin] is the text that the successive calls of [fgets] in the
    shell deliver, in the order in which they deliver it.  On a terminal
    or a pipe this is what is typed or piped in and not read by a child.
    It need not be the content of a file the shell reads its commands
    from: a child that leaves through [exit(1)] flushes its copy of the
    input buffer, which moves the offset of the shared file back to where
    the shell stood at the [fork], and the shell is then handed a part of
    the file a second time.  The text delivered contains that part
    twice. *)
Fixpoint shell_loop (v : variant) (ticks : list tick) (stdin : string)
    (st : shell) : list event * progress :=
  match ticks with
  | [] => ([], Prompting st stdin)
  | t :: later =>
      match prompt stdin with
      | None => ([PROMPT; EvExit 0], Ended (Exits 0 (children st)))
      | Some (input, stdin') =>
          match body v t input st with
          | (evs, Continue st') =>
              let (evs', r) := shell_loop v later stdin' st' in
              (PROMPT :: (evs ++ evs')%list, r)
          | (evs, Stop r) => (PROMPT :: evs, Ended r)
          end
      end
  end.

(** *** run_shell

    [heap] is the text found in [commands[0]] as [malloc] returns it;
    [run_shell] does not write it before the first line is read.
    [stdin] is as in [shell_loop]. *)
Definition run_shell (v : variant) (heap : string) (ticks : list tick)
    (stdin : string) : list event * progress :=
  shell_loop v ticks stdin {| status := 0; commands0 := heap; children := [] |}.

End Smallsh.

(** ** The vocabulary of the specification *)

Module Spec.
Import Libc Smallsh.

(** *** Input source (section 4.2, step 2b)

    The resolution of the child's input as the specification words it:
    foreground with an input redirect opens that path, background
    without an input redirect reads the null device, every other case
    inherits the input of the shell. *)
Inductive input_source :=
| FromPath (path : string)
| NullDevice
| InheritedInput.

Definition spec_input_source (background : bool) (inputRedirect : option string)
    : input_source :=
  match background, inputRedirect with
  | false, Some path => FromPath path
  | true, None => NullDevice
  | _, _ => InheritedInput
  end.

(** The file a source puts on descriptor 0. *)
Definition source_path (s : input_source) : option string :=
  match s with
  | FromPath path => Some path
  | NullDevice => Some "/dev/null"
  | InheritedInput => None
  end.

(** The [inputRedirect] of a command line: absent when the buffer holds
    the empty string. *)
Definition inputRedirect (c : cmdline) : option string :=
  if (input_filename c =? "")%string then None else Some (input_filename c).

(** The claim: the child's descriptor 0 is the one the specification
    resolves. *)
Definition input_as_specified (v : variant) (sys : sysenv) (c : cmdline) : Prop :=
  on_stdin (setup (child_side v sys c))
  = source_path (spec_input_source (negb (fg c)) (inputRedirect c)).

Definition read_only (path : string) : open_call :=
  {| o_path := path; o_flags := [O_RDONLY]; o_mode := None |}.

Definition is_read_only (call : open_call) : bool :=
  match o_flags call with
  | [O_RDONLY] => true
  | _ => false
  end.

(** *** Stored status (section 4.4)

    The status word of the last foreground process the shell has waited
    for, and the status word of the last child it has collected in
    either way; 0, the initial value of [status], when there is none. *)
Definition note_foreground (acc : Z) (e : event) : Z :=
  match e with
  | EvWaitFg _ ws => ws
  | _ => acc
  end.

Definition note_collected (acc : Z) (e : event) : Z :=
  match e with
  | EvWaitFg _ ws => ws
  | EvReap _ ws => ws
  | _ => acc
  end.

Definition last_foreground (tr : list event) : Z :=
  fold_left note_foreground tr 0.

Definition last_collected (tr : list event) : Z :=
  fold_left note_collected tr 0.

(** The claim that [status] always holds the status of the last
    foreground process. *)
Definition status_is_last_foreground (v : variant) (heap : string)
    (ticks : list tick) (stdin : string) : Prop :=
  forall tr st rest,
    run_shell v heap ticks stdin = (tr, Prompting st rest) ->
    status st = last_foreground tr.

(** *** The two versions

    What a run of [part_000] shows where a run of [smallsh.c] shows the
    event [e]: the output file is created with mode 0644, the status of
    a foreground child is reported when its wait returns, and the line
    that announces a background child starts with a capital. *)
Definition capitalised (text : string) : string :=
  match text with
  | String "b" rest => String "B" rest
  | _ => text
  end.

Definition remode (call : open_call) : open_call :=
  {| o_path := o_path call; o_flags := o_flags call;
     o_mode := option_map (fun _ => out_mode part_000) (o_mode call) |}.

Definition remode_run (c : child_run) : child_run :=
  {| setup := {| sigint_default := sigint_default (setup c);
                 opened := map remode (opened (setup c));
                 on_stdin := on_stdin (setup c);
                 on_stdout := on_stdout (setup c) |};
     ending := ending c |}.

Definition as_part_000 (e : event) : list event :=
  match e with
  | EvOut text => [EvOut (capitalised text)]
  | EvFork pid spec c => [EvFork pid spec (remode_run c)]
  | EvWaitFg pid ws => EvWaitFg pid ws :: map EvOut (get_status ws)
  | _ => [e]
  end.

(** The claim that the two versions behave alike. *)
Definition same_behaviour (heap : string) (ticks : list tick) (stdin : string) : Prop :=
  run_shell smallsh_c heap ticks stdin = run_shell part_000 heap ticks stdin.

(** *** Environments for the examples *)

(** A system in which every call of the child succeeds. *)
Definition all_ok : sysenv :=
  {| open_ok := fun _ _ => true; dup2_ok := fun _ => true;
     execvp_ok := fun _ => true |}.

(** An iteration in which [fork] returns [pid] and the program ends as
    [prog], and one in which [fork] fails; [finished] as in [tick]. *)
Definition forks (pid : positive) (prog : termination) (finished : list positive)
    : tick :=
  {| t_fork := Some (pid, Some prog); t_sys := all_ok; t_finished := finished |}.

Definition fork_fails (finished : list positive) : tick :=
  {| t_fork := None; t_sys := all_ok; t_finished := finished |}.

(** An iteration for a line that does not reach [fork]. *)
Definition no_fork (finished : list positive) : tick :=
  {| t_fork := None; t_sys := all_ok; t_finished := finished |}.

Definition same_lines (a b : list string) : bool :=
  if list_eq_dec string_dec a b then true else false.

(** *** Events without a launch *)
Definition no_forks (evs : list event) : Prop :=
  forall pid spec run, ~ In (EvFork pid spec run) evs.

(** The events in which the shell collects a child. *)
Definition collects (e : event) : bool :=
  match e with
  | EvWaitFg _ _ | EvReap _ _ => true
  | _ => false
  end.

Definition lines (l : list string) : string :=
  fold_right (fun line rest => line ++ nl ++ rest) "" l.

End Spec.

(** ** Command lines as text *)

Module Lines.
Import Libc Smallsh.

(** A string without the newline character. *)
Fixpoint no_newline (s : string) : bool :=
  match s with
  | EmptyString => true
  | String c rest => negb (c =? LF)%char && no_newline rest
  end.

(** A string without a character of the delimiter set. *)
Fixpoint no_delim (s : string) : bool :=
  match s with
  | EmptyString => true
  | String c rest => negb (is_delim c) && no_delim rest
  end.

(** A string without the NUL character. *)
Fixpoint no_nul (s : string) : bool :=
  match s with
  | EmptyString => true
  | String c rest => negb (c =? "000")%char && no_nul rest
  end.

(** What [strtok] can return: a non-empty run of non-delimiters. *)
Definition token_ok (tok : string) : bool :=
  negb (tok =? "")%string && no_delim tok.

(** A token as it can stand on a line: non-empty, without a space, a
    newline or a NUL. *)
Definition word_ok (tok : string) : bool := token_ok tok && no_nul tok.

(** A token the tokenizing loop copies into [commands]: none of the three
    tokens it compares with. *)
Definition plain (tok : string) : bool :=
  negb (tok =? ">")%string && negb (tok =? "<")%string
  && negb (tok =? "&")%string.

(** The tokens separated by single spaces. *)
Fixpoint unwords (toks : list string) : string :=
  match toks with
  | [] => ""
  | [tok] => tok
  | tok :: rest => tok ++ " " ++ unwords rest
  end.

(** The sum of the lengths of the tokens. *)
Fixpoint total_length (toks : list string) : nat :=
  match toks with
  | [] => O
  | tok :: rest => (String.length tok + total_length rest)%nat
  end.

(** A command line written back as tokens: the arguments, the input
    redirect, the output redirect, the background mark. *)
Definition render (c : cmdline) : list string :=
  (args c
     ++ (if (input_filename c =? "")%string then [] else ["<"; input_filename c])
     ++ (if (output_filename c =? "")%string then [] else [">"; output_filename c])
     ++ (if fg c then [] else ["&"]))%list.

(** A command line every part of which fits the buffer it is copied to. *)
Definition fits_buffers (c : cmdline) : bool :=
  forallb (fits STRINGSIZE) (args c)
  && (List.length (args c) <? COMMANDS)%nat
  && fits FILENAME (input_filename c)
  && fits FILENAME (output_filename c).

(** A command line every part of which can stand on a line. *)
Definition tokens_ok (c : cmdline) : bool :=
  forallb word_ok (args c)
  && ((input_filename c =? "")%string || word_ok (input_filename c))
  && ((output_filename c =? "")%string || word_ok (output_filename c)).

(** What the loop leaves in the buffers: arguments and file names are
    tokens of the line, within the size of their buffers; no argument is
    one of the three tokens the loop compares with. *)
Definition from_line (toks : list string) (c : cmdline) : Prop :=
  Forall (fun a => In a toks /\ plain a = true /\ fits STRINGSIZE a = true) (args c)
  /\ (input_filename c = "" \/ (In (input_filename c) toks
                                /\ fits FILENAME (input_filename c) = true))
  /\ (output_filename c = "" \/ (In (output_filename c) toks
                                 /\ fits FILENAME (output_filename c) = true)).

End Lines.

(** ** Children and events *)

Module Jobs.
Import Libc Smallsh.

(** The children an event list reports as collected by a poll. *)
Fixpoint reaped (evs : list event) : list child_proc :=
  match evs with
  | [] => []
  | EvReap pid ws :: rest => {| c_pid := pid; will_end := Some ws |} :: reaped rest
  | _ :: rest => reaped rest
  end.

(** A child a poll can collect: it terminates, and it is among the
    children the system reports as finished. *)
Definition reapable (finished : list positive) (c : child_proc) : bool :=
  existsb (Pos.eqb (c_pid c)) finished
  && match will_end c with Some _ => true | None => false end.

(** What [wait_for_children] prints for one child. *)
Definition report (c : child_proc) : list event :=
  match will_end c with
  | Some ws =>
      EvReap (c_pid c) ws
        :: EvOut ("Background process " ++ fmt_d (Zpos (c_pid c)) ++ " closed" ++ nl)
        :: map EvOut (get_status ws)
  | None => []
  end.

Definition is_prompt (e : event) : bool :=
  match e with
  | EvOut text => (text =? ": ")%string
  | _ => false
  end.

Definition is_exit (e : event) : bool :=
  match e with
  | EvExit _ => true
  | _ => false
  end.

(** *** Foreground children

    The command lines the loop of [run_shell] hands to
    [handle_fork_exec]: the first argument is none of the texts the
    chain of comparisons on [commands[0]] stops at. *)
Definition external (c : cmdline) : bool :=
  match args c with
  | [] => false
  | first :: _ =>
      negb ((first =? "")%string || (first =? nl)%string
            || starts_with_hash first
            || (first =? "cd")%string || (first =? "status")%string
            || (first =? "exit")%string)
  end.

(** The shell when [waitpid(pid, status, 0)] has returned with the
    status word [ws]: the word is stored, the child is collected. *)
Definition waited (ws : Z) (st : shell) : shell :=
  {| status := ws; commands0 := commands0 st; children := children st |}.

(** The iteration an event belongs to, given the events [pre] before it:
    every iteration starts with a prompt, so it is the iteration of the
    last prompt in [pre]. *)
Definition fork_tick (ticks : list tick) (pre : list event) : option tick :=
  match filter is_prompt pre with
  | [] => None
  | _ :: earlier => nth_error ticks (List.length earlier)
  end.

(** What stands behind the [fork] of a foreground child that the
    iteration [t] has created: the return of [waitpid] on that child with
    the status word that the child of this iteration ends with, or
    nothing when that child never ends. *)
Definition foreground_wait (v : variant) (t : tick) (pid : positive)
    (spec : cmdline) (tail : list event) (blocked : Prop) : Prop :=
  exists prog,
    t_fork t = Some (pid, prog)
    /\ match child_status (child_side v (t_sys t) spec) prog with
       | Some ws => exists rest, tail = EvWaitFg pid ws :: rest
       | None => tail = [] /\ blocked
       end.

(** The events of a pass through the body in the iteration [t]: no
    [fork], or one [fork] in front, of the child of this iteration. *)
Definition fork_in_front (v : variant) (t : tick) (evs : list event)
    (o : outcome) : Prop :=
  Spec.no_forks evs
  \/ exists pid spec tail,
       evs = EvFork pid spec (child_side v (t_sys t) spec) :: tail
       /\ Spec.no_forks tail
       /\ (exists prog, t_fork t = Some (pid, prog))
       /\ (fg spec = true ->
           foreground_wait v t pid spec tail (o = Stop (Blocked pid))).

End Jobs.

(** ** The memory of the commands array

    [create_char_array], [delete_char_array] and [reset_command_array]
    as they use the allocator.  Blocks are numbered in the order in which
    [malloc] returns them; the heap is the list of the blocks that are
    allocated and not yet freed, oldest first.  [malloc] is taken to succeed, as the
    program takes it (no result is compared with [NULL]). *)

Module Memory.
Local Open Scope nat_scope.

Record heap := {
  next_block : nat;
  live : list nat
}.

Definition malloc (h : heap) : nat * heap :=
  (next_block h,
   {| next_block := S (next_block h); live := (live h ++ [next_block h])%list |}).

Definition is_live (b : nat) (h : heap) : bool := existsb (Nat.eqb b) (live h).

(** [free(p)]: nothing for [NULL] ([None]); undefined ([None] as result)
    for a block that is not allocated. *)
Definition free (p : option nat) (h : heap) : option heap :=
  match p with
  | None => Some h
  | Some b =>
      if is_live b h
      then Some {| next_block := next_block h;
                   live := filter (fun x => negb (Nat.eqb x b)) (live h) |}
      else None
  end.

(** A [char **]: the block of the pointer array and the pointers in it. *)
Record char_array := {
  base : nat;
  slots : list (option nat)
}.

(** The loop of [create_char_array]. *)
Fixpoint alloc_strings (n : nat) (h : heap) : list (option nat) * heap :=
  match n with
  | O => ([], h)
  | S n' =>
      let (b, h1) := malloc h in
      let (rest, h2) := alloc_strings n' h1 in
      (Some b :: rest, h2)
  end.

Definition create_char_array (arraysize : nat) (h : heap) : char_array * heap :=
  let (b, h1) := malloc h in
  let (strings, h2) := alloc_strings arraysize h1 in
  ({| base := b; slots := strings |}, h2).

(** The loop of [delete_char_array]: [free(to_delete[i])] for the first
    [n] entries; reading beyond the array is undefined. *)
Fixpoint free_strings (pointers : list (option nat)) (n : nat) (h : heap)
    : option heap :=
  match n with
  | O => Some h
  | S n' =>
      match pointers with
      | [] => None
      | p :: rest =>
          match free p h with
          | Some h1 => free_strings rest n' h1
          | None => None
          end
      end
  end.

Definition delete_char_array (to_delete : char_array) (arraysize : nat) (h : heap)
    : option heap :=
  match free_strings (slots to_delete) arraysize h with
  | Some h1 => free (Some (base to_delete)) h1
  | None => None
  end.

(** [reset_command_array], as far as the allocator sees it. *)
Definition reset_command_array (commands : char_array) (arraysize : nat) (h : heap)
    : option (char_array * heap) :=
  match delete_char_array commands arraysize h with
  | Some h1 => Some (create_char_array arraysize h1)
  | None => None
  end.

(** [commands[i] = NULL]. *)
Fixpoint store_null (i : nat) (pointers : list (option nat)) : list (option nat) :=
  match pointers, i with
  | [], _ => []
  | _ :: rest, O => None :: rest
  | p :: rest, S i' => p :: store_null i' rest
  end.

(** [if (i != 0) commands[i] = NULL;] *)
Definition terminate_argv (i : nat) (commands : char_array) : char_array :=
  match i with
  | O => commands
  | _ => {| base := base commands; slots := store_null i (slots commands) |}
  end.

(** The blocks a list of pointers points to. *)
Definition blocks_of (pointers : list (option nat)) : list nat :=
  flat_map (fun p => match p with Some b => [b] | None => [] end) pointers.

(** No block of the heap has a number [malloc] has still to hand out. *)
Definition heap_ok (h : heap) : Prop :=
  Forall (fun b => b < next_block h)%nat (live h).

End Memory.

Import Libc Smallsh Spec.

(** ** Examples *)

Example strtok_example :
  strtok ("  ls   -la" ++ nl) = ["ls"; "-la"].
Proof. reflexivity. Qed.

Example fgets_example :
  fgets 2049 ("ls" ++ nl ++ "pwd" ++ nl) = Some ("ls" ++ nl, "pwd" ++ nl).
Proof. reflexivity. Qed.

Example read_command_background :
  read_command ("sleep 2 &" ++ nl)
  = inr {| args := ["sleep"; "2"]; output_filename := "";
           input_filename := ""; fg := false |}.
Proof. reflexivity. Qed.

Example get_status_exit_1 :
  get_status (wait_status (Exited 1))
  = ["The process exited normally" ++ nl; "The exit status was 1" ++ nl].
Proof. reflexivity. Qed.

Example get_status_sigint :
  get_status (wait_status (Signaled 2 false))
  = ["The process was terminated by a signal 2" ++ nl].
Proof. reflexivity. Qed.

(** ** The command line *)

(** C9: the line "wc < in.txt > out.txt", with or without the newline
    that [fgets] stores, is read as the argument list [wc], input file
    [in.txt], output file [out.txt], in the foreground. *)
Theorem read_command_wc :
  read_command "wc < in.txt > out.txt"
  = inr {| args := ["wc"]; output_filename := "out.txt";
           input_filename := "in.txt"; fg := true |}
  /\ read_command ("wc < in.txt > out.txt" ++ nl)
     = inr {| args := ["wc"]; output_filename := "out.txt";
              input_filename := "in.txt"; fg := true |}.
Proof. split; reflexivity. Qed.

(** C1: a line that ends in [>] or [<] is not rejected: [strtok] returns
    [NULL] for the file name and the loop hands it to [strcpy], so the
    iteration has no defined behaviour; no diagnostic is printed and the
    next prompt is not reached. *)
Theorem trailing_redirect_undefined :
  forall v t st,
    body v t ("ls >" ++ nl) st = ([], Stop (Undefined StrcpyNull))
    /\ body v t ("cat <" ++ nl) st = ([], Stop (Undefined StrcpyNull))
    /\ forall ticks rest,
         shell_loop v (t :: ticks) ("ls >" ++ nl ++ rest) st
         = ([PROMPT], Ended (Undefined StrcpyNull)).
Proof. intros v t st. repeat split. Qed.

(** ** Status reports *)

(** A property checked on every number below [n] holds on the interval. *)
Lemma checked_below (P : Z -> bool) (n : nat) :
  forallb P (map Z.of_nat (seq 0 n)) = true ->
  forall z, 0 <= z < Z.of_nat n -> P z = true.
Proof.
  intros Hall z Hz.
  rewrite forallb_forall in Hall. apply Hall.
  rewrite <- (Z2Nat.id z) by lia.
  apply in_map, in_seq. lia.
Qed.

Lemma same_lines_eq a b : same_lines a b = true -> a = b.
Proof. unfold same_lines. destruct (list_eq_dec string_dec a b); congruence. Qed.

(** A process that calls [exit(code)] is reported in the first form, with
    the low eight bits of [code]. *)
Lemma get_status_exited (code : Z) :
  get_status (wait_status (Exited code))
  = ["The process exited normally" ++ nl;
     "The exit status was " ++ fmt_d (exit_code code) ++ nl].
Proof.
  assert (Hrange : 0 <= Z.land code 255 < Z.of_nat 256).
  { change 255 with (Z.ones 8). rewrite Z.land_ones by lia.
    change (Z.of_nat 256) with (2 ^ 8). apply Z.mod_pos_bound. lia. }
  unfold wait_status, exit_code.
  apply same_lines_eq.
  apply (checked_below
           (fun m => same_lines (get_status (W_EXITCODE m 0))
                       ["The process exited normally" ++ nl;
                        "The exit status was " ++ fmt_d m ++ nl])
           256); [vm_compute; reflexivity | exact Hrange].
Qed.

(** A process killed by signal [sig] is reported in the second form; the
    number printed is the whole status word: [sig] when no core was
    dumped, [sig + 128] when one was. *)
Lemma get_status_signaled (sig : Z) (core : bool) :
  1 <= sig < 127 ->
  get_status (wait_status (Signaled sig core))
  = ["The process was terminated by a signal "
       ++ fmt_d (if core then sig + 128 else sig) ++ nl].
Proof.
  intros Hsig.
  assert (Hrange : 0 <= sig < Z.of_nat 127) by lia.
  assert (Hall := checked_below
            (fun s => (s =? 0)
                      || same_lines
                           (get_status (wait_status (Signaled s core)))
                           ["The process was terminated by a signal "
                              ++ fmt_d (if core then s + 128 else s) ++ nl])
            127).
  cbv beta in Hall.
  apply same_lines_eq.
  destruct (orb_true_iff (sig =? 0)
              (same_lines (get_status (wait_status (Signaled sig core)))
                 ["The process was terminated by a signal "
                    ++ fmt_d (if core then sig + 128 else sig) ++ nl]))
    as [Hor _].
  destruct Hor as [H0 | Hsame].
  - apply Hall; [destruct core; vm_compute; reflexivity | exact Hrange].
  - apply Z.eqb_eq in H0. lia.
  - exact Hsame.
Qed.

(** The two forms never coincide. *)
Lemma get_status_forms_differ (code sig : Z) (core : bool) :
  1 <= sig < 127 ->
  get_status (wait_status (Exited code))
  <> get_status (wait_status (Signaled sig core)).
Proof.
  intros Hsig. rewrite get_status_exited, (get_status_signaled sig core Hsig).
  discriminate.
Qed.

(** C2: for a process killed by SIGSEGV (11) with a core dump the status
    word is 139; [get_status] takes the second form but prints 139, the
    status word, where the terminating signal [WTERMSIG] is 11. *)
Theorem get_status_prints_status_word :
  let ws := wait_status (Signaled 11 true) in
  ws = 139
  /\ WIFSIGNALED ws = true
  /\ WTERMSIG ws = 11
  /\ get_status ws = ["The process was terminated by a signal 139" ++ nl].
Proof. repeat split. Qed.

(** ** Leaving the shell *)

(** C5: [exit], typed while the background child 100 is still running,
    ends the shell with that child left behind: [exit_shell] polls, finds
    no terminated child and calls [exit]; no wait on 100 is ever made.
    At the end of input [prompt] calls [exit(0)] without any poll.  The
    argument of [exit] is the status word, not the exit code: after the
    foreground command [false] (exit code 1, status word 256) the shell
    ends with code 0. *)
Theorem exit_does_not_wait :
  forall v,
    let run := run_shell v ""
                 [forks 100 (Exited 0) []; no_fork []]
                 (lines ["sleep 100 &"; "exit"]) in
    snd run = Ended (Exits 0 [{| c_pid := 100; will_end := Some 0 |}])
    /\ filter collects (fst run) = []
    /\ snd (run_shell v ""
              [forks 100 (Exited 0) []; no_fork [100%positive]]
              (lines ["sleep 100 &"]))
       = Ended (Exits 0 [{| c_pid := 100; will_end := Some 0 |}])
    /\ snd (run_shell v ""
              [forks 7 (Exited 1) []; no_fork []]
              (lines ["false"; "exit"]))
       = Ended (Exits 0 []).
Proof. intros v. repeat split. Qed.

(** C6: [fork] fails for the line "ls" after the background child 100 has
    ended with exit code 0.  [handle_fork_exec] prints the error and
    stores 1, [exit_shell] then collects child 100, which overwrites the
    stored 1 with 0, and the shell ends with [exit(0)].  When child 100 is
    still running instead, the shell ends with [exit(1)] and leaves it
    uncollected. *)
Theorem fork_failure_exit_code :
  forall v,
    let run := run_shell v ""
                 [forks 100 (Exited 0) []; fork_fails [100%positive]]
                 (lines ["sleep 1 &"; "ls"]) in
    snd run = Ended (Exits 0 [])
    /\ In (EvErr ("error in fork" ++ nl)) (fst run)
    /\ In (EvReap 100 0) (fst run)
    /\ snd (run_shell v ""
              [forks 100 (Exited 0) []; fork_fails []]
              (lines ["sleep 1 &"; "ls"]))
       = Ended (Exits 1 [{| c_pid := 100; will_end := Some 0 |}]).
Proof.
  intros v. repeat split.
  - cbn. do 4 right. left. reflexivity.
  - cbn. do 5 right. left. reflexivity.
Qed.

(** ** The child's redirections *)

(** [take] finds the child that was put in front. *)
Lemma take_head pid w rest :
  take pid ({| c_pid := pid; will_end := w |} :: rest)
  = Some ({| c_pid := pid; will_end := w |}, rest).
Proof. cbn. rewrite Pos.eqb_refl. reflexivity. Qed.

(** A background command with an input redirect, "cat < in.txt &": the
    specification leaves the input inherited, the child reads the null
    device. *)
Lemma background_input_redirect :
  read_command ("cat < in.txt &" ++ nl)
  = inr {| args := ["cat"]; output_filename := "";
           input_filename := "in.txt"; fg := false |}
  /\ ~ input_as_specified smallsh_c all_ok
         {| args := ["cat"]; output_filename := "";
            input_filename := "in.txt"; fg := false |}.
Proof. split; [reflexivity | discriminate]. Qed.

(** A child that ends in [exit] ends in [exit(1)], whatever failed. *)
Lemma child_exit_code v sys c code msg :
  ending (child_side v sys c) = ChildExit code msg -> code = 1.
Proof.
  unfold child_side, redirect.
  destruct (to_open c) as [path |]; cbn;
    repeat match goal with
           | |- context [if ?b then _ else _] => destruct b; cbn
           end;
    intros H; inversion H; reflexivity.
Qed.

(** C4, amended: the child opens read-only exactly the file the variable
    [to_open] names: the input file for a foreground command that has one,
    the null device for every background command (with or without an
    input redirect), nothing for a foreground command without one, whose
    input stays the shell's.  When that [open] and the [dup2] onto
    descriptor 0 succeed the file is the child's input; when either fails
    the child makes no further call and ends with [exit(1)], and so does
    a child whose output file is not put on descriptor 1.  Every [exit]
    of the child is [exit(1)]; the shell collects it as the status word
    of a normal exit with code 1 and goes on with its loop. *)
Theorem child_input_source :
  forall v sys c,
    let r := child_side v sys c in
    let expected := if fg c then inputRedirect c else Some "/dev/null" in
    match expected with
    | None =>
        on_stdin (setup r) = None
        /\ filter is_read_only (opened (setup r)) = []
    | Some path =>
        filter is_read_only (opened (setup r)) = [read_only path]
        /\ if open_ok sys path [O_RDONLY] && dup2_ok sys 0
           then on_stdin (setup r) = Some path
           else on_stdin (setup r) = None
                /\ opened (setup r) = [read_only path]
                /\ exists msg, ending r = ChildExit 1 msg
    end
    /\ (on_stdout (setup r) = None ->
        (output_filename c =? "")%string = false ->
        exists msg, ending r = ChildExit 1 msg)
    /\ (forall code msg prog,
          ending r = ChildExit code msg ->
          code = 1 /\ child_status r prog = Some (wait_status (Exited 1)))
    /\ (forall code msg pid prog finished st,
          ending r = ChildExit code msg ->
          exists evs st',
            handle_fork_exec v
              {| t_fork := Some (pid, prog); t_sys := sys; t_finished := finished |}
              c st
            = (evs, Continue st')
            /\ status st' = if fg c then wait_status (Exited 1) else status st).
Proof.
  intros v sys c r expected.
  assert (Hexit : forall code msg prog,
             ending r = ChildExit code msg ->
             code = 1 /\ child_status r prog = Some (wait_status (Exited 1))).
  { intros code msg prog Hend.
    assert (code = 1) by (eapply child_exit_code; exact Hend). subst code.
    split; [reflexivity |].
    unfold child_status. rewrite Hend. reflexivity. }
  split; [| split; [| split; [exact Hexit |]]].
  - subst r expected. unfold child_side, to_open, inputRedirect, redirect.
    destruct (fg c); [destruct (input_filename c =? "")%string |]; cbn;
      repeat match goal with
             | |- context [open_ok ?s ?p ?f] => destruct (open_ok s p f); cbn
             | |- context [dup2_ok ?s ?n] => destruct (dup2_ok s n); cbn
             | |- context [execvp_ok ?s ?n] => destruct (execvp_ok s n); cbn
             | |- context [(output_filename c =? "")%string] =>
                 destruct (output_filename c =? "")%string; cbn
             end;
      repeat split; eauto.
  - subst r. unfold child_side, to_open, redirect.
    intros Hout Hname. revert Hout. rewrite Hname.
    destruct (fg c); [destruct (input_filename c =? "")%string |]; cbn;
      repeat match goal with
             | |- context [open_ok ?s ?p ?f] => destruct (open_ok s p f); cbn
             | |- context [dup2_ok ?s ?n] => destruct (dup2_ok s n); cbn
             | |- context [execvp_ok ?s ?n] => destruct (execvp_ok s n); cbn
             end;
      intros Hout; try discriminate; eauto.
  - intros code msg pid prog finished st Hend.
    destruct (Hexit code msg prog Hend) as [_ Hstatus].
    unfold handle_fork_exec. cbn [t_fork t_sys t_finished].
    fold r. rewrite Hstatus.
    destruct (fg c).
    + rewrite take_head. eexists _, _. split; reflexivity.
    + eexists _, _. split; reflexivity.
Qed.

Lemma child_input_source_witness :
  let sys := {| open_ok := fun _ _ => false; dup2_ok := fun _ => true;
                execvp_ok := fun _ => true |} in
  let c := {| args := ["cat"]; output_filename := "";
              input_filename := "missing.txt"; fg := true |} in
  child_status (child_side smallsh_c sys c) None = Some (wait_status (Exited 1)).
Proof.
  intros sys c.
  exact (proj2 (proj1 (proj2 (proj2 (child_input_source smallsh_c sys c)))
                  1 ("Error opening input file" ++ nl) None eq_refl)).
Defined.

(** ** The stored status *)

Section StoredStatus.

Lemma note_collected_out lines acc :
  fold_left note_collected (map EvOut lines) acc = acc.
Proof. induction lines; cbn; auto. Qed.

(** [wait_for_children] leaves in [status] the word of the last child it
    collects. *)
Lemma wait_for_children_status finished :
  forall st evs st',
    wait_for_children finished st = (evs, st') ->
    status st' = fold_left note_collected evs (status st).
Proof.
  induction finished as [| pid more IH]; intros st evs st'; cbn.
  - intros H; inversion H; reflexivity.
  - destruct (take pid (children st)) as [[[p [ws |]] others] |]; try apply IH.
    destruct (wait_for_children more _) as [evs1 st1] eqn:Hmore.
    intros H; inversion H; subst; clear H.
    cbn. rewrite fold_left_app, note_collected_out.
    apply IH in Hmore. exact Hmore.
Qed.

Lemma handle_fork_exec_status v t c st evs st' :
  handle_fork_exec v t c st = (evs, Continue st') ->
  status st' = fold_left note_collected evs (status st).
Proof.
  unfold handle_fork_exec, exit_shell.
  destruct (t_fork t) as [[pid prog] |].
  - destruct (fg c).
    + rewrite take_head.
      destruct (child_status _ prog) as [ws |]; intros H; inversion H; subst.
      cbn. destruct (report_fg v); [apply eq_sym, note_collected_out | reflexivity].
    + intros H; inversion H; reflexivity.
  - destruct (wait_for_children _ _). discriminate.
Qed.

Lemma dispatch_status v t c st evs st' :
  dispatch v t c st = (evs, Continue st') ->
  status st' = fold_left note_collected evs (status st).
Proof.
  unfold dispatch, exit_shell.
  set (first := match args c with [] => commands0 st | a :: _ => a end).
  destruct ((first =? "")%string || (first =? nl)%string);
    [intros H; inversion H; reflexivity |].
  destruct (starts_with_hash first); [intros H; inversion H; reflexivity |].
  destruct (first =? "cd")%string.
  { destruct (args c) as [| a rest]; [discriminate |].
    intros H; inversion H; subst. destruct rest; reflexivity. }
  destruct (first =? "status")%string.
  { intros H; inversion H; subst. apply eq_sym, note_collected_out. }
  destruct (first =? "exit")%string.
  { destruct (wait_for_children _ _). discriminate. }
  destruct (args c); [discriminate | apply handle_fork_exec_status].
Qed.

Lemma body_status v t input st evs st' :
  body v t input st = (evs, Continue st') ->
  status st' = fold_left note_collected evs (status st).
Proof.
  unfold body. destruct (read_command input) as [f | c]; [discriminate |].
  destruct (dispatch v t c st) as [evs1 [st1 | r]] eqn:Hd; [| discriminate].
  destruct (wait_for_children (t_finished t) st1) as [reaped st2] eqn:Hw.
  intros H; inversion H; subst; clear H. cbn.
  rewrite fold_left_app.
  rewrite (wait_for_children_status _ _ _ _ Hw).
  rewrite (dispatch_status _ _ _ _ _ _ Hd). reflexivity.
Qed.


Lemma shell_loop_status v ticks :
  forall stdin st tr st' rest,
    shell_loop v ticks stdin st = (tr, Prompting st' rest) ->
    status st' = fold_left note_collected tr (status st).
Proof.
  induction ticks as [| t later IH]; intros stdin st tr st' rest; cbn.
  - intros H; inversion H; reflexivity.
  - destruct (prompt stdin) as [[input stdin'] |]; [| discriminate].
    destruct (body v t input st) as [evs [st1 | r]] eqn:Hb.
    + destruct (shell_loop v later stdin' st1) as [evs' r'] eqn:Hl.
      intros H; inversion H; subst; clear H.
      cbn. rewrite fold_left_app.
      rewrite <- (body_status _ _ _ _ _ _ Hb).
      apply (IH _ _ _ _ _ Hl).
    + intros H; inversion H.
Qed.

End StoredStatus.

(** The background child 100 ends while the foreground command [false]
    runs: the wait stores the status word 256 of [false], the poll at the
    end of the iteration overwrites it with the word 0 of child 100, and
    that is what [status] holds at the next prompt. *)
Lemma status_overwritten_by_poll :
  ~ status_is_last_foreground smallsh_c ""
      [forks 100 (Exited 0) []; forks 101 (Exited 1) [100%positive]]
      (lines ["sleep 1 &"; "false"]).
Proof.
  intros H.
  specialize (H _ _ _ eq_refl). vm_compute in H. discriminate.
Qed.

(** C3, amended: at every prompt the stored status is the status word of
    the child the shell collected last, by the wait on a foreground
    process or by a poll that reaped a background process, whichever
    happened later (0 before any child was collected); the [status]
    built-in prints [get_status] of that word, the rendering used for the
    background reports. *)
Theorem status_is_last_collected :
  forall v heap ticks stdin tr st rest,
    run_shell v heap ticks stdin = (tr, Prompting st rest) ->
    status st = last_collected tr
    /\ forall t,
         fst (body v t ("status" ++ nl) st)
         = (map EvOut (get_status (last_collected tr))
              ++ fst (wait_for_children (t_finished t) st))%list.
Proof.
  intros v heap ticks stdin tr st rest Hrun.
  assert (Hst : status st = last_collected tr).
  { unfold run_shell in Hrun. apply shell_loop_status in Hrun. exact Hrun. }
  split; [exact Hst |].
  intros t. rewrite <- Hst.
  unfold body. cbn.
  destruct (wait_for_children (t_finished t) st). reflexivity.
Qed.

Lemma status_is_last_collected_witness :
  let run := run_shell smallsh_c ""
               [forks 100 (Exited 0) []; forks 101 (Exited 1) [100%positive]]
               (lines ["sleep 1 &"; "false"]) in
  match snd run with
  | Prompting st _ => status st = last_collected (fst run)
  | _ => False
  end.
Proof.
  exact (proj1 (status_is_last_collected smallsh_c ""
                  [forks 100 (Exited 0) []; forks 101 (Exited 1) [100%positive]]
                  (lines ["sleep 1 &"; "false"]) _ _ _ eq_refl)).
Defined.

(** ** Lines that launch nothing *)

Section Filtering.

(** Induction on lists that may step over two elements at once, as the
    tokenizing loop does at a redirect operator. *)
Lemma list_pair_ind (A : Type) (P : list A -> Prop) :
  P [] ->
  (forall a, P [a]) ->
  (forall a b l, P l -> P (b :: l) -> P (a :: b :: l)) ->
  forall l, P l.
Proof.
  intros Hnil Hone Hstep.
  assert (Hboth : forall l, P l /\ forall a, P (a :: l)).
  { induction l as [| b l [IHl IHcons]].
    - split; [exact Hnil | exact Hone].
    - split; [apply IHcons |]. intros a. apply Hstep; [exact IHl | apply IHcons]. }
  intros l. apply Hboth.
Qed.



Lemma wait_for_children_not_fork finished st pid spec run :
  ~ In (EvFork pid spec run) (fst (wait_for_children finished st)).
Proof.
  revert st. induction finished as [| p more IH]; intros st; cbn.
  - intros [].
  - destruct (take p (children st)) as [[[q [ws |]] others] |]; try apply IH.
    specialize (IH {| status := ws; commands0 := commands0 st; children := others |}).
    destruct (wait_for_children more _) as [evs st1]. cbn in *.
    intros [H | [H | H]]; try discriminate.
    apply in_app_or in H. destruct H as [H | H]; [| exact (IH H)].
    apply in_map_iff in H. destruct H as [x [H _]]. discriminate.
Qed.


End Filtering.

(** A line made of spaces and newlines only has no token. *)
Lemma blank_line_has_no_token input :
  forallb is_delim (list_ascii_of_string input) = true -> strtok input = [].
Proof.
  unfold strtok. induction input as [| ch rest IH]; cbn; [reflexivity |].
  destruct (is_delim ch) eqn:Hdelim; [| discriminate].
  destruct (ch =? "000")%char; [reflexivity |].
  cbn. rewrite Hdelim. exact IH.
Qed.






(** C8: a comment line and a blank line that are not ignored.

    The loop tokenizes the whole line before [commands[0]] is looked at.
    In the comment line "# note >" the [>] at the end therefore reaches
    [strcpy] with the [NULL] of [strtok], as in a command line: the
    behaviour is undefined, and neither the comment test nor the poll at
    the end of the body nor the next prompt is reached.

    A blank line leaves [commands[0]] as it was.  At the first prompt
    that is the memory [malloc] returned, which [run_shell] has not
    written; where it holds the text "ls" the chain of comparisons ends
    in the call of [handle_fork_exec], with an argument vector in which
    nothing has been stored. *)
Theorem comment_and_blank_line_faults :
  forall v t,
    (strtok ("# note >" ++ nl) = ["#"; "note"; ">"]
     /\ starts_with_hash "#" = true
     /\ forall st,
          body v t ("# note >" ++ nl) st = ([], Stop (Undefined StrcpyNull))
          /\ forall ticks rest,
               shell_loop v (t :: ticks) ("# note >" ++ nl ++ rest) st
               = ([PROMPT], Ended (Undefined StrcpyNull)))
    /\ (strtok nl = []
        /\ read_command nl = inr fresh_cmdline
        /\ forall ticks rest,
             run_shell v "ls" (t :: ticks) (nl ++ rest)
             = ([PROMPT], Ended (Undefined UninitialisedArgv))).
Proof. intros v t. repeat split. Qed.



(** ** Foreground commands *)

Section Foreground.

(** A line without the token [&] is a foreground command. *)
Lemma tokenize_keeps_fg toks :
  forall c c', ~ In "&" toks -> tokenize toks c = inr c' -> fg c' = fg c.
Proof.
  induction toks as [| a | a b l IHl IHbl] using list_pair_ind; intros c c' Hno.
  - cbn. intros H; inversion H; reflexivity.
  - cbn [tokenize].
    destruct (a =? ">")%string; [discriminate |].
    destruct (a =? "<")%string; [discriminate |].
    destruct (a =? "&")%string eqn:Hamp.
    { apply String.eqb_eq in Hamp. subst a. destruct Hno. left. reflexivity. }
    destruct (COMMANDS <=? List.length (args c))%nat; [discriminate |].
    destruct (fits STRINGSIZE a); [| discriminate].
    intros H; inversion H; reflexivity.
  - assert (Hl : ~ In "&" l) by (intros H; apply Hno; right; right; exact H).
    assert (Hbl : ~ In "&" (b :: l)) by (intros H; apply Hno; right; exact H).
    cbn [tokenize].
    destruct (a =? ">")%string.
    { destruct (fits FILENAME b); [| discriminate].
      intros H. apply (IHl _ _ Hl) in H. exact H. }
    destruct (a =? "<")%string.
    { destruct (fits FILENAME b); [| discriminate].
      intros H. apply (IHl _ _ Hl) in H. exact H. }
    destruct (a =? "&")%string eqn:Hamp.
    { apply String.eqb_eq in Hamp. subst a. destruct Hno. left. reflexivity. }
    destruct (COMMANDS <=? List.length (args c))%nat; [discriminate |].
    destruct (fits STRINGSIZE a); [| discriminate].
    intros H. apply (IHbl _ _ Hbl) in H. exact H.
Qed.

Lemma no_ampersand_is_foreground input c :
  ~ In "&" (strtok input) -> read_command input = inr c -> fg c = true.
Proof.
  intros Hno. unfold read_command.
  destruct (tokenize (strtok input) fresh_cmdline) as [f | c1] eqn:Htok;
    [discriminate |].
  destruct (COMMANDS <=? List.length (args c1))%nat; [discriminate |].
  intros H; inversion H; subst c1.
  exact (tokenize_keeps_fg _ _ _ Hno Htok).
Qed.

(** An element of [l1 ++ l2] lies in [l1] or in [l2]. *)
Lemma split_in_app (A : Type) (x : A) (l1 : list A) :
  forall l2 pre post,
    (l1 ++ l2 = pre ++ x :: post)%list ->
    (exists mid, l1 = pre ++ x :: mid /\ post = mid ++ l2)%list
    \/ (exists pre', pre = l1 ++ pre' /\ l2 = pre' ++ x :: post)%list.
Proof.
  induction l1 as [| a l1 IH]; intros l2 pre post H.
  - right. exists pre. split; [reflexivity | exact H].
  - destruct pre as [| b pre]; cbn in H; inversion H; subst.
    + left. exists l1. split; reflexivity.
    + destruct (IH _ _ _ H2) as [[mid [H1 Hp]] | [pre' [H1 Hp]]].
      * left. exists mid. subst. split; reflexivity.
      * right. exists pre'. subst. split; reflexivity.
Qed.

Lemma no_forks_app evs1 evs2 :
  no_forks evs1 -> no_forks evs2 -> no_forks (evs1 ++ evs2).
Proof.
  intros H1 H2 pid spec run Hin. apply in_app_or in Hin.
  destruct Hin as [Hin | Hin]; [exact (H1 _ _ _ Hin) | exact (H2 _ _ _ Hin)].
Qed.

Lemma no_forks_out lines : no_forks (map EvOut lines).
Proof.
  intros pid spec run Hin. apply in_map_iff in Hin.
  destruct Hin as [x [H _]]. discriminate.
Qed.

Lemma no_forks_poll finished st : no_forks (fst (wait_for_children finished st)).
Proof. intros pid spec run. apply wait_for_children_not_fork. Qed.

End Foreground.

(** ** The two versions of the program *)

Section Versions.

Lemma child_side_part_000 sys c :
  child_side part_000 sys c = remode_run (child_side smallsh_c sys c).
Proof.
  unfold child_side, redirect.
  destruct (to_open c) as [path |]; cbn;
    repeat match goal with
           | |- context [if ?b then _ else _] => destruct b; cbn
           end;
    reflexivity.
Qed.

Lemma child_status_remode r prog :
  child_status (remode_run r) prog = child_status r prog.
Proof. reflexivity. Qed.

Lemma as_part_000_report ws :
  flat_map as_part_000 (map EvOut (get_status ws)) = map EvOut (get_status ws).
Proof. unfold get_status. destruct (WIFEXITED ws); reflexivity. Qed.

Lemma as_part_000_poll finished :
  forall st,
    flat_map as_part_000 (fst (wait_for_children finished st))
    = fst (wait_for_children finished st).
Proof.
  induction finished as [| pid more IH]; intros st; cbn; [reflexivity |].
  destruct (take pid (children st)) as [[[p [ws |]] others] |]; try apply IH.
  specialize (IH {| status := ws; commands0 := commands0 st; children := others |}).
  destruct (wait_for_children more _) as [evs st1]. cbn in *.
  rewrite flat_map_app, as_part_000_report, IH. reflexivity.
Qed.

Lemma exit_shell_part_000 finished st :
  flat_map as_part_000 (fst (exit_shell finished st)) = fst (exit_shell finished st).
Proof.
  unfold exit_shell. pose proof (as_part_000_poll finished st) as Hpoll.
  destruct (wait_for_children finished st) as [evs st1]. cbn in *.
  rewrite flat_map_app, Hpoll. reflexivity.
Qed.

Lemma handle_fork_exec_part_000 t c st :
  handle_fork_exec part_000 t c st
  = (flat_map as_part_000 (fst (handle_fork_exec smallsh_c t c st)),
     snd (handle_fork_exec smallsh_c t c st)).
Proof.
  unfold handle_fork_exec.
  destruct (t_fork t) as [[pid prog] |].
  - rewrite child_side_part_000, child_status_remode.
    destruct (fg c).
    + rewrite !take_head.
      destruct (child_status (child_side smallsh_c (t_sys t) c) prog); cbn;
        [rewrite app_nil_r |]; reflexivity.
    + reflexivity.
  - pose proof (exit_shell_part_000 (t_finished t)
                  {| status := 1; commands0 := commands0 st; children := children st |})
      as Hexit.
    destruct (exit_shell _ _) as [evs r]. cbn in *. rewrite Hexit. reflexivity.
Qed.

Lemma dispatch_part_000 t c st :
  dispatch part_000 t c st
  = (flat_map as_part_000 (fst (dispatch smallsh_c t c st)),
     snd (dispatch smallsh_c t c st)).
Proof.
  unfold dispatch.
  set (first := match args c with [] => commands0 st | a :: _ => a end).
  destruct ((first =? "")%string || (first =? nl)%string); [reflexivity |].
  destruct (starts_with_hash first); [reflexivity |].
  destruct (first =? "cd")%string.
  { destruct (args c) as [| a rest]; [reflexivity |]. destruct rest; reflexivity. }
  destruct (first =? "status")%string.
  { cbn. rewrite as_part_000_report. reflexivity. }
  destruct (first =? "exit")%string.
  { pose proof (exit_shell_part_000 (t_finished t) st) as Hexit.
    destruct (exit_shell _ _) as [evs r]. cbn in *. rewrite Hexit. reflexivity. }
  destruct (args c); [reflexivity | apply handle_fork_exec_part_000].
Qed.

Lemma body_part_000 t input st :
  body part_000 t input st
  = (flat_map as_part_000 (fst (body smallsh_c t input st)),
     snd (body smallsh_c t input st)).
Proof.
  unfold body. destruct (read_command input) as [f | c]; [reflexivity |].
  rewrite dispatch_part_000.
  destruct (dispatch smallsh_c t c st) as [evs [st1 | r]]; cbn; [| reflexivity].
  pose proof (as_part_000_poll (t_finished t) st1) as Hpoll.
  destruct (wait_for_children (t_finished t) st1) as [reaped st2]. cbn in *.
  rewrite flat_map_app, Hpoll. reflexivity.
Qed.

Lemma shell_loop_part_000 ticks :
  forall stdin st,
    shell_loop part_000 ticks stdin st
    = (flat_map as_part_000 (fst (shell_loop smallsh_c ticks stdin st)),
       snd (shell_loop smallsh_c ticks stdin st)).
Proof.
  induction ticks as [| t later IH]; intros stdin st; cbn; [reflexivity |].
  destruct (prompt stdin) as [[input stdin'] |]; [| reflexivity].
  rewrite body_part_000.
  destruct (body smallsh_c t input st) as [evs [st1 | r]]; cbn; [| reflexivity].
  rewrite IH.
  destruct (shell_loop smallsh_c later stdin' st1) as [evs' p]. cbn.
  rewrite flat_map_app. reflexivity.
Qed.

End Versions.

(** For the lines "ls > out.txt" and "sleep 1 &" the two versions do not
    show the same events: the mode of [out.txt], the report after the
    wait, and the first letter of the line for the background child. *)
Lemma versions_differ :
  ~ same_behaviour ""
      [forks 7 (Exited 0) []; forks 8 (Exited 0) []]
      (lines ["ls > out.txt"; "sleep 1 &"]).
Proof. intros H. vm_compute in H. discriminate. Qed.

(** C10, amended: for every input and environment the run of [part_000]
    is the run of [smallsh.c] with, event by event, the output file
    created with mode 0644 instead of 0744, [get_status] printed when a
    foreground wait returns, and the background line starting with a
    capital letter; the same children are forked and collected, the
    stored status, the remaining input and the way the shell ends are the
    same. *)
Theorem part_000_follows_smallsh_c :
  forall heap ticks stdin,
    run_shell part_000 heap ticks stdin
    = (flat_map as_part_000 (fst (run_shell smallsh_c heap ticks stdin)),
       snd (run_shell smallsh_c heap ticks stdin)).
Proof. intros heap ticks stdin. apply shell_loop_part_000. Qed.

(** ** Reading the input *)

Import Lines Jobs.

Lemma length_append a b :
  String.length (a ++ b) = (String.length a + String.length b)%nat.
Proof. induction a as [| ch a IH]; cbn; [reflexivity | rewrite IH; reflexivity]. Qed.

Lemma append_assoc a b c : ((a ++ b) ++ c)%string = (a ++ b ++ c)%string.
Proof. induction a as [| ch a IH]; cbn; [reflexivity | rewrite IH; reflexivity]. Qed.

Lemma append_empty a : (a ++ "")%string = a.
Proof. induction a as [| ch a IH]; cbn; [reflexivity | rewrite IH; reflexivity]. Qed.

Lemma fgets_from_split n :
  forall s line rest,
    fgets_from n s = (line, rest) ->
    s = line ++ rest /\ (String.length line <= n)%nat.
Proof.
  induction n as [| n IH]; intros s line rest.
  - cbn. intros H; inversion H; subst. split; [reflexivity | cbn; lia].
  - destruct s as [| ch s]; cbn.
    + intros H; inversion H; subst. split; [reflexivity | cbn; lia].
    + destruct (ch =? LF)%char.
      * intros H; inversion H; subst. split; [reflexivity | cbn; lia].
      * destruct (fgets_from n s) as [line' rest'] eqn:Hrec.
        intros H; inversion H; subst.
        destruct (IH _ _ _ Hrec) as [Hs Hlen]. subst s.
        split; [reflexivity | cbn; lia].
Qed.

Lemma fgets_from_shape n :
  forall s line rest,
    fgets_from n s = (line, rest) ->
    exists text,
      no_newline text = true
      /\ (line = text ++ nl
          \/ (line = text /\ (String.length line = n \/ rest = ""))).
Proof.
  induction n as [| n IH]; intros s line rest.
  - cbn. intros H; inversion H; subst. exists "". split; [reflexivity |].
    right. split; [reflexivity | left; reflexivity].
  - destruct s as [| ch s]; cbn.
    + intros H; inversion H; subst. exists "". split; [reflexivity |].
      right. split; [reflexivity | right; reflexivity].
    + destruct (ch =? LF)%char eqn:Hch.
      * intros H; inversion H; subst. exists "". split; [reflexivity |].
        left. apply Ascii.eqb_eq in Hch. subst ch. reflexivity.
      * destruct (fgets_from n s) as [line' rest'] eqn:Hrec.
        intros H; inversion H; subst.
        destruct (IH _ _ _ Hrec) as [text [Hno Hshape]].
        exists (String ch text). split; [cbn; rewrite Hch, Hno; reflexivity |].
        destruct Hshape as [Hnl | [Heq Hend]].
        -- left. subst line'. reflexivity.
        -- right. subst line'. split; [reflexivity |].
           destruct Hend as [Hlen | Hrest]; [left; cbn; lia | right; exact Hrest].
Qed.

Lemma fgets_prefix size stream input rest :
  (2 <= size)%nat ->
  fgets size stream = Some (input, rest) ->
  stream = input ++ rest
  /\ (1 <= String.length input <= Nat.pred size)%nat.
Proof.
  intros Hsize. unfold fgets.
  destruct stream as [| ch s]; [discriminate |].
  intros H. assert (Hf : fgets_from (Nat.pred size) (String ch s) = (input, rest))
    by congruence. clear H.
  destruct (fgets_from_split _ _ _ _ Hf) as [Hs Hlen].
  split; [exact Hs | split; [| exact Hlen]].
  destruct size as [| [| n]]; [lia | lia |].
  cbn [Nat.pred fgets_from] in Hf.
  destruct (ch =? LF)%char.
  - assert (input = String ch "") by congruence. subst input. cbn. lia.
  - destruct (fgets_from n s) as [line' rest'].
    assert (input = String ch line') by congruence. subst input. cbn. lia.
Qed.

Lemma fgets_shape size stream input rest :
  fgets size stream = Some (input, rest) ->
  exists text,
    no_newline text = true
    /\ (input = text ++ nl
        \/ (input = text
            /\ (String.length input = Nat.pred size \/ rest = ""))).
Proof.
  unfold fgets. destruct stream as [| ch s]; [discriminate |].
  intros H. assert (Hf : fgets_from (Nat.pred size) (String ch s) = (input, rest))
    by congruence.
  exact (fgets_from_shape _ _ _ _ Hf).
Qed.

(** [prompt] hands over a non-empty prefix of the input, of at most 2048
    characters, and leaves the rest of the input to the next call:
    nothing is lost and nothing is read twice. *)
Theorem prompt_reads_prefix :
  forall stdin input rest,
    prompt stdin = Some (input, rest) ->
    stdin = input ++ rest
    /\ (1 <= String.length input <= 2048)%nat.
Proof.
  intros stdin input rest H.
  change 2048%nat with (Nat.pred 2049).
  apply fgets_prefix; [| exact H].
  apply (Nat.leb_le 2 2049). reflexivity.
Qed.

(** The line [prompt] hands over has no newline but at its end; a line
    without a newline at its end was cut at 2048 characters (what follows
    is read as the next line) or is the end of the input. *)
Theorem prompt_line_shape :
  forall stdin input rest,
    prompt stdin = Some (input, rest) ->
    exists text,
      no_newline text = true
      /\ (input = text ++ nl
          \/ (input = text /\ (String.length input = 2048%nat \/ rest = ""))).
Proof.
  intros stdin input rest H.
  change 2048%nat with (Nat.pred 2049).
  exact (fgets_shape _ _ _ _ H).
Qed.

(** *** strtok *)

Lemma no_delim_app a b :
  no_delim (a ++ b) = no_delim a && no_delim b.
Proof.
  induction a as [| ch a IH]; cbn; [reflexivity |].
  rewrite IH, andb_assoc. reflexivity.
Qed.

Lemma append_not_empty a ch : (a ++ String ch "" =? "")%string = false.
Proof. destruct a; reflexivity. Qed.

Lemma strtok_from_tokens s :
  forall cur,
    no_delim cur = true ->
    Forall (fun tok => token_ok tok = true) (strtok_from s cur).
Proof.
  induction s as [| ch s IH]; intros cur Hcur; cbn.
  - destruct (cur =? "")%string eqn:Hempty; constructor; [| constructor].
    unfold token_ok. rewrite Hempty, Hcur. reflexivity.
  - destruct (is_delim ch) eqn:Hch.
    + destruct (cur =? "")%string eqn:Hempty; [apply IH; reflexivity |].
      constructor; [| apply IH; reflexivity].
      unfold token_ok. rewrite Hempty, Hcur. reflexivity.
    + apply IH. rewrite no_delim_app, Hcur. cbn. rewrite Hch. reflexivity.
Qed.

(** Every token handed to the loop is non-empty and free of spaces and
    newlines. *)
Theorem strtok_tokens :
  forall input, Forall (fun tok => token_ok tok = true) (strtok input).
Proof. intros input. apply strtok_from_tokens. reflexivity. Qed.

Lemma strtok_from_token tok :
  forall s cur,
    no_delim tok = true ->
    strtok_from (tok ++ s) cur = strtok_from s (cur ++ tok).
Proof.
  induction tok as [| ch tok IH]; intros s cur Hok; cbn.
  - rewrite append_empty. reflexivity.
  - cbn in Hok. apply andb_true_iff in Hok. destruct Hok as [Hch Hok].
    apply negb_true_iff in Hch. rewrite Hch.
    rewrite (IH _ _ Hok), append_assoc. reflexivity.
Qed.

Lemma token_ok_parts tok :
  token_ok tok = true -> (tok =? "")%string = false /\ no_delim tok = true.
Proof.
  unfold token_ok. intros H. apply andb_true_iff in H. destruct H as [H1 H2].
  apply negb_true_iff in H1. split; assumption.
Qed.

Lemma strtok_from_unwords :
  forall toks,
    Forall (fun tok => token_ok tok = true) toks ->
    strtok_from (unwords toks ++ nl) "" = toks.
Proof.
  induction toks as [| tok rest IH]; intros Hok; [reflexivity |].
  inversion Hok as [| ? ? Htok Hrest]; subst.
  destruct (token_ok_parts _ Htok) as [Hne Hnd].
  destruct rest as [| tok' rest'].
  - cbn [unwords]. rewrite strtok_from_token by exact Hnd. cbn. rewrite Hne. reflexivity.
  - change (unwords (tok :: tok' :: rest')) with (tok ++ " " ++ unwords (tok' :: rest')).
    rewrite append_assoc, strtok_from_token by exact Hnd.
    cbn [append strtok_from]. change (is_delim " ") with true. cbv iota.
    change ("" ++ tok)%string with tok.
    rewrite Hne. f_equal. apply IH. exact Hrest.
Qed.

Lemma c_string_no_nul s : no_nul s = true -> c_string s = s.
Proof.
  induction s as [| ch s IH]; cbn; [reflexivity |].
  intros H. apply andb_true_iff in H. destruct H as [Hch Hs].
  apply negb_true_iff in Hch. rewrite Hch, (IH Hs). reflexivity.
Qed.

Lemma no_nul_app a b : no_nul (a ++ b) = no_nul a && no_nul b.
Proof.
  induction a as [| ch a IH]; cbn; [reflexivity |].
  rewrite IH, andb_assoc. reflexivity.
Qed.

Lemma no_nul_unwords toks :
  Forall (fun tok => no_nul tok = true) toks -> no_nul (unwords toks) = true.
Proof.
  induction toks as [| tok rest IH]; intros Hok; [reflexivity |].
  inversion Hok as [| ? ? Htok Hrest]; subst.
  destruct rest as [| tok' rest']; [exact Htok |].
  change (unwords (tok :: tok' :: rest')) with (tok ++ " " ++ unwords (tok' :: rest')).
  rewrite !no_nul_app, Htok, (IH Hrest). reflexivity.
Qed.

Lemma word_ok_parts tok :
  word_ok tok = true -> token_ok tok = true /\ no_nul tok = true.
Proof. unfold word_ok. intros H. apply andb_true_iff in H. exact H. Qed.

Lemma strtok_of_unwords :
  forall toks,
    Forall (fun tok => word_ok tok = true) toks ->
    strtok (unwords toks ++ nl) = toks.
Proof.
  intros toks Hok. unfold strtok.
  rewrite c_string_no_nul.
  - apply strtok_from_unwords. eapply Forall_impl; [| exact Hok].
    intros tok Htok. apply (word_ok_parts _ Htok).
  - rewrite no_nul_app, no_nul_unwords; [reflexivity |].
    eapply Forall_impl; [| exact Hok]. intros tok Htok. apply (word_ok_parts _ Htok).
Qed.

(** *** The tokenizing loop *)

Lemma plain_parts tok :
  plain tok = true ->
  (tok =? ">")%string = false /\ (tok =? "<")%string = false
  /\ (tok =? "&")%string = false.
Proof.
  unfold plain. intros H.
  apply andb_true_iff in H. destruct H as [H H3].
  apply andb_true_iff in H. destruct H as [H1 H2].
  apply negb_true_iff in H1, H2, H3. auto.
Qed.

(** Plain tokens that fit are appended to [commands] one by one. *)
Lemma tokenize_plain pre :
  forall rest c,
    forallb (fun a => plain a && fits STRINGSIZE a) pre = true ->
    (List.length (args c) + List.length pre < COMMANDS)%nat ->
    tokenize (pre ++ rest) c
    = tokenize rest
        {| args := (args c ++ pre)%list; output_filename := output_filename c;
           input_filename := input_filename c; fg := fg c |}.
Proof.
  induction pre as [| tok pre IH]; intros rest c Hall Hlen.
  - cbn. rewrite app_nil_r. destruct c; reflexivity.
  - cbn [forallb] in Hall. apply andb_true_iff in Hall. destruct Hall as [Htok Hall].
    apply andb_true_iff in Htok. destruct Htok as [Hplain Hfits].
    destruct (plain_parts _ Hplain) as [H1 [H2 H3]].
    cbn [app tokenize]. rewrite H1, H2, H3, Hfits.
    assert (Hroom : (COMMANDS <=? List.length (args c))%nat = false).
    { apply Nat.leb_gt. cbn [List.length] in Hlen. lia. }
    rewrite Hroom. rewrite IH; [| exact Hall |].
    + cbn [args output_filename input_filename fg]. rewrite <- app_assoc. reflexivity.
    + cbn [args]. rewrite length_app. cbn [List.length] in *. lia.
Qed.

Lemma fits_buffers_parts c :
  fits_buffers c = true ->
  forallb (fits STRINGSIZE) (args c) = true
  /\ (List.length (args c) < COMMANDS)%nat
  /\ fits FILENAME (input_filename c) = true
  /\ fits FILENAME (output_filename c) = true.
Proof.
  unfold fits_buffers. intros H.
  apply andb_true_iff in H. destruct H as [H H4].
  apply andb_true_iff in H. destruct H as [H H3].
  apply andb_true_iff in H. destruct H as [H1 H2].
  apply Nat.ltb_lt in H2. auto.
Qed.

Lemma forallb_both (A : Type) (p q : A -> bool) l :
  forallb p l = true -> forallb q l = true ->
  forallb (fun a => p a && q a) l = true.
Proof.
  intros Hp Hq. rewrite forallb_forall in *. intros a Ha.
  rewrite (Hp a Ha), (Hq a Ha). reflexivity.
Qed.

(** Reading back the tokens of a command line gives the command line. *)
Lemma tokenize_render :
  forall c,
    forallb plain (args c) = true ->
    fits_buffers c = true ->
    tokenize (render c) fresh_cmdline = inr c.
Proof.
  intros c Hplain Hfit.
  destruct (fits_buffers_parts _ Hfit) as [Hargs [Hlen [Hin Hout]]].
  unfold render.
  rewrite tokenize_plain; [| exact (forallb_both _ _ _ _ Hplain Hargs) | cbn; lia].
  cbn [args fresh_cmdline output_filename input_filename fg app].
  destruct c as [a o i f]. cbn [Smallsh.args Smallsh.output_filename
                                 Smallsh.input_filename Smallsh.fg] in *.
  destruct (i =? "")%string eqn:Hi; destruct (o =? "")%string eqn:Ho;
    try (apply String.eqb_eq in Hi; subst i);
    try (apply String.eqb_eq in Ho; subst o);
    destruct f; cbn -[fits FILENAME]; rewrite ?Hin, ?Hout;
    cbn -[fits FILENAME]; rewrite ?Hin, ?Hout; reflexivity.
Qed.

Lemma forallb_app_true (A : Type) (p : A -> bool) l1 l2 :
  forallb p l1 = true -> forallb p l2 = true -> forallb p (l1 ++ l2) = true.
Proof. intros H1 H2. rewrite forallb_app, H1, H2. reflexivity. Qed.

(** A command line written as text (arguments, [< file], [> file], [&],
    single spaces, a newline) is read back as the same command line,
    provided no argument is one of [<], [>], [&], every part fits its
    buffer, and every part is non-empty text without a space, a newline
    or a NUL. *)
Theorem read_command_render :
  forall c,
    forallb plain (args c) = true ->
    fits_buffers c = true ->
    tokens_ok c = true ->
    read_command (unwords (render c) ++ nl) = inr c.
Proof.
  intros c Hplain Hfit Htok. unfold read_command.
  rewrite strtok_of_unwords.
  - rewrite (tokenize_render _ Hplain Hfit).
    destruct (fits_buffers_parts _ Hfit) as [_ [Hlen _]].
    apply Nat.leb_gt in Hlen. rewrite Hlen. reflexivity.
  - apply Forall_forall. intros tok Hin.
    unfold tokens_ok in Htok.
    apply andb_true_iff in Htok. destruct Htok as [Htok Ho].
    apply andb_true_iff in Htok. destruct Htok as [Ha Hi].
    unfold render in Hin.
    apply in_app_or in Hin. destruct Hin as [Hin | Hin].
    { rewrite forallb_forall in Ha. apply Ha. exact Hin. }
    apply in_app_or in Hin. destruct Hin as [Hin | Hin].
    { destruct (input_filename c =? "")%string; [destruct Hin |].
      cbn in Hi. destruct Hin as [<- | [<- | []]]; [reflexivity | exact Hi]. }
    apply in_app_or in Hin. destruct Hin as [Hin | Hin].
    { destruct (output_filename c =? "")%string; [destruct Hin |].
      cbn in Ho. destruct Hin as [<- | [<- | []]]; [reflexivity | exact Ho]. }
    destruct (fg c); [destruct Hin |]. destruct Hin as [<- | []]. reflexivity.
Qed.

(** Once the loop has left at [&], what follows on the line is never
    looked at. *)
Lemma tokenize_stops_at_ampersand toks :
  forall c c' post,
    tokenize toks c = inr c' ->
    fg c = true -> fg c' = false ->
    tokenize (toks ++ post) c = inr c'.
Proof.
  induction toks as [| a | a b l IHl IHbl] using list_pair_ind;
    intros c c' post Hrun Hfg Hbg.
  - cbn in Hrun. inversion Hrun; subst. congruence.
  - cbn [tokenize] in Hrun. cbn [app tokenize].
    destruct (a =? ">")%string; [discriminate |].
    destruct (a =? "<")%string; [discriminate |].
    destruct (a =? "&")%string; [exact Hrun |].
    destruct (COMMANDS <=? List.length (args c))%nat; [discriminate |].
    destruct (fits STRINGSIZE a); [| discriminate].
    inversion Hrun; subst. cbn in Hbg. congruence.
  - cbn [tokenize] in Hrun. cbn [app tokenize].
    destruct (a =? ">")%string.
    { destruct (fits FILENAME b); [| discriminate]. apply IHl; assumption. }
    destruct (a =? "<")%string.
    { destruct (fits FILENAME b); [| discriminate]. apply IHl; assumption. }
    destruct (a =? "&")%string; [exact Hrun |].
    destruct (COMMANDS <=? List.length (args c))%nat; [discriminate |].
    destruct (fits STRINGSIZE a); [| discriminate].
    apply (IHbl _ _ post Hrun); assumption.
Qed.

(** Once a line is read as a background command, nothing that is
    appended to it changes what is read: the loop leaves at [&], so even
    a redirect operator without a file name behind it goes unnoticed. *)
Theorem background_line_ignores_rest :
  forall input input' post c,
    read_command input = inr c ->
    fg c = false ->
    strtok input' = (strtok input ++ post)%list ->
    read_command input' = inr c.
Proof.
  intros input input' post c Hread Hbg Htoks.
  unfold read_command in *. rewrite Htoks.
  destruct (tokenize (strtok input) fresh_cmdline) as [f | c1] eqn:Htok;
    [discriminate |].
  destruct (COMMANDS <=? List.length (args c1))%nat eqn:Hlen; [discriminate |].
  assert (c1 = c) by congruence. subst c1.
  rewrite (tokenize_stops_at_ampersand _ _ _ post Htok eq_refl Hbg), Hlen.
  reflexivity.
Qed.

Lemma from_line_more toks toks' c :
  (forall a, In a toks -> In a toks') -> from_line toks c -> from_line toks' c.
Proof.
  intros Hincl [Ha [Hi Ho]]. split; [| split].
  - eapply Forall_impl; [| exact Ha]. cbn. intros a [H1 H2]. split; auto.
  - destruct Hi as [Hi | [Hi Hf]]; [left | right]; auto.
  - destruct Ho as [Ho | [Ho Hf]]; [left | right]; auto.
Qed.

Lemma tokenize_from_line toks :
  forall all c c',
    (forall a, In a toks -> In a all) ->
    from_line all c ->
    tokenize toks c = inr c' ->
    from_line all c'.
Proof.
  induction toks as [| a | a b l IHl IHbl] using list_pair_ind;
    intros all c c' Hincl Hc.
  - cbn. intros H; inversion H; subst. exact Hc.
  - cbn [tokenize].
    destruct (a =? ">")%string eqn:H1; [discriminate |].
    destruct (a =? "<")%string eqn:H2; [discriminate |].
    destruct (a =? "&")%string eqn:H3.
    { intros H; inversion H; subst. exact Hc. }
    destruct (COMMANDS <=? List.length (args c))%nat; [discriminate |].
    destruct (fits STRINGSIZE a) eqn:Hfit; [| discriminate].
    intros H; inversion H; subst. destruct Hc as [Ha [Hi Ho]].
    split; [| split; assumption]. cbn. apply Forall_app. split; [exact Ha |].
    constructor; [| constructor]. split; [apply Hincl; left; reflexivity |].
    split; [| exact Hfit]. unfold plain. rewrite H1, H2, H3. reflexivity.
  - cbn [tokenize].
    assert (Hl : forall x, In x l -> In x all) by (intros x Hx; apply Hincl; right; right; exact Hx).
    assert (Hbl : forall x, In x (b :: l) -> In x all) by (intros x Hx; apply Hincl; right; exact Hx).
    destruct (a =? ">")%string eqn:H1.
    { destruct (fits FILENAME b) eqn:Hfit; [| discriminate].
      apply (IHl all _ _ Hl). destruct Hc as [Ha [Hi Ho]].
      split; [exact Ha | split; [exact Hi |]]. right. cbn.
      split; [apply Hincl; right; left; reflexivity | exact Hfit]. }
    destruct (a =? "<")%string eqn:H2.
    { destruct (fits FILENAME b) eqn:Hfit; [| discriminate].
      apply (IHl all _ _ Hl). destruct Hc as [Ha [Hi Ho]].
      split; [exact Ha | split; [| exact Ho]]. right. cbn.
      split; [apply Hincl; right; left; reflexivity | exact Hfit]. }
    destruct (a =? "&")%string eqn:H3.
    { intros H; inversion H; subst. exact Hc. }
    destruct (COMMANDS <=? List.length (args c))%nat; [discriminate |].
    destruct (fits STRINGSIZE a) eqn:Hfit; [| discriminate].
    apply (IHbl all _ _ Hbl). destruct Hc as [Ha [Hi Ho]].
    split; [| split; assumption]. cbn. apply Forall_app. split; [exact Ha |].
    constructor; [| constructor]. split; [apply Hincl; left; reflexivity |].
    split; [| exact Hfit]. unfold plain. rewrite H1, H2, H3. reflexivity.
Qed.

(** What a completed loop has put in the buffers: at most 512 arguments,
    each a token of the line, none of them [<], [>] or [&], each within
    513 bytes; each file name empty or a token of the line within 100
    bytes; every argument non-empty and free of spaces and newlines. *)
Theorem read_command_from_line :
  forall input c,
    read_command input = inr c ->
    from_line (strtok input) c
    /\ (List.length (args c) < COMMANDS)%nat
    /\ Forall (fun a => token_ok a = true) (args c).
Proof.
  intros input c. unfold read_command.
  destruct (tokenize (strtok input) fresh_cmdline) as [f | c1] eqn:Htok;
    [discriminate |].
  destruct (COMMANDS <=? List.length (args c1))%nat eqn:Hlen; [discriminate |].
  intros H. assert (c1 = c) by congruence. subst c1.
  assert (Hfrom : from_line (strtok input) c).
  { apply (tokenize_from_line (strtok input) (strtok input) fresh_cmdline c).
    - auto.
    - split; [constructor | split; left; reflexivity].
    - exact Htok. }
  split; [exact Hfrom | split; [apply Nat.leb_gt; exact Hlen |]].
  destruct Hfrom as [Ha _]. apply Forall_forall. intros a Hin.
  rewrite Forall_forall in Ha. destruct (Ha a Hin) as [Htokin _].
  pose proof (strtok_from_tokens (c_string input) "" eq_refl) as Hok.
  change (strtok_from (c_string input) "") with (strtok input) in Hok.
  rewrite Forall_forall in Hok.
  apply Hok. exact Htokin.
Qed.

(** *** Lines that cannot overflow *)

Lemma strtok_from_total s :
  forall cur,
    (total_length (strtok_from s cur) <= String.length s + String.length cur)%nat.
Proof.
  induction s as [| ch s IH]; intros cur; cbn.
  - destruct (cur =? "")%string; cbn; lia.
  - destruct (is_delim ch).
    + destruct (cur =? "")%string; cbn.
      * specialize (IH ""). cbn in IH. lia.
      * specialize (IH ""). cbn in IH. lia.
    + specialize (IH (cur ++ String ch "")). rewrite length_append in IH.
      cbn in IH. lia.
Qed.

Lemma total_length_bounds toks :
  Forall (fun tok => token_ok tok = true) toks ->
  (List.length toks <= total_length toks)%nat
  /\ Forall (fun tok => (String.length tok <= total_length toks)%nat) toks.
Proof.
  induction toks as [| tok rest IH]; intros Hok; cbn.
  - split; [lia | constructor].
  - inversion Hok as [| ? ? Htok Hrest]; subst.
    destruct (IH Hrest) as [Hcount Hall].
    destruct (token_ok_parts _ Htok) as [Hne _].
    assert (1 <= String.length tok)%nat by (destruct tok; [discriminate | cbn; lia]).
    split; [lia |]. constructor; [lia |].
    eapply Forall_impl; [| exact Hall]. cbn. intros a Ha. lia.
Qed.

Lemma tokenize_short toks :
  forall c,
    Forall (fun tok => (String.length tok < 100)%nat) toks ->
    (List.length (args c) + List.length toks < 513)%nat ->
    tokenize toks c = inl StrcpyNull
    \/ exists c',
         tokenize toks c = inr c'
         /\ (List.length (args c') <= List.length (args c) + List.length toks)%nat.
Proof.
  assert (Hname : forall tok, (String.length tok < 100)%nat -> fits FILENAME tok = true).
  { intros tok H. unfold fits, FILENAME. apply Nat.ltb_lt. exact H. }
  assert (Harg : forall tok, (String.length tok < 100)%nat -> fits STRINGSIZE tok = true).
  { intros tok H. unfold fits, STRINGSIZE. apply Nat.ltb_lt. lia. }
  induction toks as [| a | a b l IHl IHbl] using list_pair_ind; intros c Hshort Hroom.
  - right. exists c. split; [reflexivity | lia].
  - inversion Hshort as [| ? ? Ha _]; subst. cbn [tokenize].
    destruct (a =? ">")%string; [left; reflexivity |].
    destruct (a =? "<")%string; [left; reflexivity |].
    destruct (a =? "&")%string.
    { right. eexists. split; [reflexivity | cbn; lia]. }
    assert (Hidx : (COMMANDS <=? List.length (args c))%nat = false).
    { apply Nat.leb_gt. unfold COMMANDS. cbn [List.length] in Hroom. lia. }
    rewrite Hidx, (Harg _ Ha).
    right. eexists. split; [reflexivity |]. cbn. rewrite length_app. cbn. lia.
  - inversion Hshort as [| ? ? Ha Hbl]; subst.
    inversion Hbl as [| ? ? Hb Hl]; subst.
    cbn [tokenize]. cbn [List.length] in Hroom.
    destruct (a =? ">")%string.
    { rewrite (Hname _ Hb).
      destruct (IHl {| args := args c; output_filename := b;
                       input_filename := input_filename c; fg := fg c |} Hl)
        as [Hnull | [c' [Hc' Hlen]]]; [cbn; lia | left; exact Hnull |].
      right. exists c'. split; [exact Hc' | cbn in *; lia]. }
    destruct (a =? "<")%string.
    { rewrite (Hname _ Hb).
      destruct (IHl {| args := args c; output_filename := output_filename c;
                       input_filename := b; fg := fg c |} Hl)
        as [Hnull | [c' [Hc' Hlen]]]; [cbn; lia | left; exact Hnull |].
      right. exists c'. split; [exact Hc' | cbn in *; lia]. }
    destruct (a =? "&")%string.
    { right. eexists. split; [reflexivity | cbn; lia]. }
    assert (Hidx : (COMMANDS <=? List.length (args c))%nat = false).
    { apply Nat.leb_gt. unfold COMMANDS. lia. }
    rewrite Hidx, (Harg _ Ha).
    destruct (IHbl {| args := (args c ++ [a])%list; output_filename := output_filename c;
                      input_filename := input_filename c; fg := fg c |} Hbl)
      as [Hnull | [c' [Hc' Hlen]]].
    + cbn [args List.length]. rewrite length_app. cbn [List.length]. lia.
    + left. exact Hnull.
    + right. exists c'. split; [exact Hc' |].
      cbn [args List.length] in Hlen |- *. rewrite length_app in Hlen.
      cbn [List.length] in Hlen. lia.
Qed.

Lemma c_string_length s : (String.length (c_string s) <= String.length s)%nat.
Proof.
  induction s as [| ch s IH]; cbn; [lia |].
  destruct (ch =? "000")%char; cbn; lia.
Qed.

(** A line of fewer than 100 characters never writes outside a buffer:
    it is read as a command line, or it ends in a redirect operator. *)
Theorem short_line_is_safe :
  forall input,
    (String.length input < 100)%nat ->
    read_command input = inl StrcpyNull
    \/ exists c, read_command input = inr c.
Proof.
  intros input Hlen. unfold read_command.
  pose proof (strtok_from_total (c_string input) "") as Htotal.
  pose proof (c_string_length input) as Hcut.
  destruct (total_length_bounds _ (strtok_from_tokens (c_string input) "" eq_refl))
    as [Hcount Hall].
  change (strtok_from (c_string input) "") with (strtok input) in Htotal, Hcount, Hall.
  cbn [String.length] in Htotal.
  assert (Hshort : Forall (fun tok => (String.length tok < 100)%nat) (strtok input)).
  { eapply Forall_impl; [| exact Hall]. cbn. intros a Ha. lia. }
  destruct (tokenize_short (strtok input) fresh_cmdline Hshort)
    as [Hnull | [c' [Hc' Hargs]]].
  - cbn. lia.
  - left. rewrite Hnull. reflexivity.
  - right. rewrite Hc'. exists c'.
    assert (Hidx : (COMMANDS <=? List.length (args c'))%nat = false).
    { apply Nat.leb_gt. unfold COMMANDS. cbn in Hargs. lia. }
    rewrite Hidx. reflexivity.
Qed.

(** *** Polling *)

Lemma take_split pid l :
  forall c others,
    take pid l = Some (c, others) ->
    exists l1 l2,
      l = (l1 ++ c :: l2)%list /\ others = (l1 ++ l2)%list /\ c_pid c = pid
      /\ Forall (fun x => c_pid x <> pid) l1.
Proof.
  induction l as [| x l IH]; intros c others; cbn; [discriminate |].
  destruct (c_pid x =? pid)%positive eqn:Hx.
  - intros H; inversion H; subst. exists [], others.
    apply Pos.eqb_eq in Hx. repeat split; auto.
  - destruct (take pid l) as [[found rest] |]; [| discriminate].
    intros H; inversion H; subst.
    destruct (IH _ _ eq_refl) as [l1 [l2 [Hl [Ho [Hp Hall]]]]].
    exists (x :: l1), l2. subst. repeat split.
    constructor; [apply Pos.eqb_neq; exact Hx | exact Hall].
Qed.

Lemma take_none pid l :
  take pid l = None -> Forall (fun x => c_pid x <> pid) l.
Proof.
  induction l as [| x l IH]; cbn; [constructor |].
  destruct (c_pid x =? pid)%positive eqn:Hx; [discriminate |].
  destruct (take pid l) as [[found rest] |]; [discriminate |].
  intros _. constructor; [apply Pos.eqb_neq; exact Hx | apply IH; reflexivity].
Qed.

(** A poll neither loses nor invents a child: the children before it are
    the children it reports and the children it leaves; what it prints is
    the report of each collected child in turn, and each reported child
    is one that terminates, with the status word printed. *)
Theorem wait_for_children_accounts :
  forall finished st,
    Permutation (children st)
      (reaped (fst (wait_for_children finished st))
         ++ children (snd (wait_for_children finished st)))
    /\ fst (wait_for_children finished st)
       = flat_map report (reaped (fst (wait_for_children finished st))).
Proof.
  induction finished as [| pid more IH]; intros st; cbn.
  - split; [apply Permutation_refl | reflexivity].
  - destruct (take pid (children st)) as [[[p [ws |]] others] |] eqn:Htake;
      try apply IH.
    destruct (take_split _ _ _ _ Htake) as [l1 [l2 [Hl [Ho [Hp _]]]]].
    cbn in Hp. subst p.
    specialize (IH {| status := ws; commands0 := commands0 st; children := others |}).
    destruct (wait_for_children more _) as [evs st1].
    cbn [fst snd children] in *.
    destruct IH as [Hperm Hrep].
    assert (Hskip : reaped (map EvOut (get_status ws) ++ evs) = reaped evs).
    { unfold get_status. destruct (WIFEXITED ws); reflexivity. }
    cbn [reaped]. rewrite Hskip. split.
    + rewrite Hl. apply Permutation_sym. cbn [app]. apply Permutation_cons_app.
      apply Permutation_sym. rewrite <- Ho. exact Hperm.
    + cbn [flat_map]. rewrite <- Hrep. reflexivity.
Qed.

Lemma reapable_listed pid more ws :
  reapable (pid :: more) {| c_pid := pid; will_end := Some ws |} = true.
Proof. unfold reapable. cbn [existsb c_pid will_end]. rewrite Pos.eqb_refl. reflexivity. Qed.

Lemma reapable_never finished pid :
  reapable finished {| c_pid := pid; will_end := None |} = false.
Proof. unfold reapable. cbn [will_end]. apply andb_false_r. Qed.

(** A poll that finds no child to collect does nothing. *)
Lemma wait_for_children_nothing finished :
  forall st,
    forallb (fun c => negb (reapable finished c)) (children st) = true ->
    wait_for_children finished st = ([], st).
Proof.
  induction finished as [| pid more IH]; intros st Hnone; [reflexivity |].
  cbn [wait_for_children].
  assert (Hmore : forallb (fun c => negb (reapable more c)) (children st) = true).
  { rewrite forallb_forall in *. intros c Hc. specialize (Hnone c Hc).
    unfold reapable in *. cbn [existsb] in Hnone.
    destruct (will_end c); [| rewrite andb_false_r; reflexivity].
    rewrite andb_true_r in *. apply negb_true_iff in Hnone.
    apply orb_false_iff in Hnone. destruct Hnone as [_ Hnone].
    rewrite Hnone. reflexivity. }
  destruct (take pid (children st)) as [[[p [ws |]] others] |] eqn:Htake;
    try (apply IH; exact Hmore).
  exfalso. destruct (take_split _ _ _ _ Htake) as [l1 [l2 [Hl [_ [Hp _]]]]].
  cbn in Hp. subst p.
  rewrite forallb_forall in Hnone.
  specialize (Hnone {| c_pid := pid; will_end := Some ws |}).
  rewrite Hl in Hnone. specialize (Hnone (in_elt _ _ _)).
  rewrite reapable_listed in Hnone. discriminate.
Qed.

Lemma reapable_other pid more c :
  c_pid c <> pid -> reapable (pid :: more) c = reapable more c.
Proof.
  intros Hne. unfold reapable. cbn [existsb].
  apply Pos.eqb_neq in Hne. rewrite Hne. reflexivity.
Qed.

Lemma filter_other pid more l :
  Forall (fun x => c_pid x <> pid) l ->
  filter (fun c => negb (reapable (pid :: more) c)) l
  = filter (fun c => negb (reapable more c)) l.
Proof.
  intros Hall. apply filter_ext_in. intros c Hc.
  rewrite Forall_forall in Hall. rewrite (reapable_other _ _ _ (Hall c Hc)).
  reflexivity.
Qed.

Lemma nodup_split_others (l1 l2 : list child_proc) c :
  NoDup (map c_pid (l1 ++ c :: l2)) ->
  NoDup (map c_pid (l1 ++ l2))
  /\ Forall (fun x => c_pid x <> c_pid c) (l1 ++ l2).
Proof.
  rewrite !map_app. cbn [map]. intros Hnd.
  split; [exact (NoDup_remove_1 _ _ _ Hnd) |].
  apply NoDup_remove_2 in Hnd. apply Forall_forall. intros x Hx Heq.
  apply Hnd. rewrite <- map_app, <- Heq. apply in_map. exact Hx.
Qed.

(** With distinct process identifiers a poll removes exactly the children
    that are listed as finished and do terminate, whatever the order of
    the list. *)
Lemma wait_for_children_filter finished :
  forall st,
    NoDup (map c_pid (children st)) ->
    children (snd (wait_for_children finished st))
    = filter (fun c => negb (reapable finished c)) (children st).
Proof.
  induction finished as [| pid more IH]; intros st Hnd.
  - cbn. symmetry. apply forallb_filter_id. apply forallb_forall.
    intros c _. unfold reapable. reflexivity.
  - cbn [wait_for_children].
    destruct (take pid (children st)) as [[[p [ws |]] others] |] eqn:Htake.
    + destruct (take_split _ _ _ _ Htake) as [l1 [l2 [Hl [Ho [Hp _]]]]].
      cbn in Hp. subst p. rewrite Hl in Hnd.
      destruct (nodup_split_others _ _ _ Hnd) as [Hnd' Hother]. cbn in Hother.
      specialize (IH {| status := ws; commands0 := commands0 st; children := others |}).
      destruct (wait_for_children more _) as [evs st1]. cbn [snd children] in *.
      rewrite IH by (rewrite Ho; exact Hnd').
      rewrite Hl, Ho. rewrite <- (filter_other pid more (l1 ++ l2) Hother).
      rewrite !filter_app. cbn [filter].
      rewrite reapable_listed. reflexivity.
    + destruct (take_split _ _ _ _ Htake) as [l1 [l2 [Hl [Ho [Hp _]]]]].
      cbn in Hp. subst p. rewrite IH by exact Hnd.
      rewrite Hl in Hnd |- *.
      destruct (nodup_split_others _ _ _ Hnd) as [_ Hother]. cbn in Hother.
      apply Forall_app in Hother. destruct Hother as [H1 H2].
      rewrite !filter_app. cbn [filter].
      rewrite (filter_other pid more l1 H1), (filter_other pid more l2 H2).
      rewrite !reapable_never. reflexivity.
    + rewrite IH by exact Hnd. symmetry. apply filter_other.
      apply take_none. exact Htake.
Qed.

(** With distinct process identifiers a poll removes exactly the
    children that are listed as finished and do terminate, and a second
    poll with the same list reports nothing: a child is reported once. *)
Theorem wait_for_children_once :
  forall finished st,
    NoDup (map c_pid (children st)) ->
    children (snd (wait_for_children finished st))
    = filter (fun c => negb (reapable finished c)) (children st)
    /\ wait_for_children finished (snd (wait_for_children finished st))
       = ([], snd (wait_for_children finished st)).
Proof.
  intros finished st Hnd.
  pose proof (wait_for_children_filter finished st Hnd) as Hfilter.
  split; [exact Hfilter |].
  apply wait_for_children_nothing. rewrite Hfilter.
  apply forallb_forall. intros c Hc. apply filter_In in Hc. apply Hc.
Qed.

(** *** The exit code of the shell *)

Lemma exit_code_range n : 0 <= exit_code n < 256.
Proof.
  unfold exit_code. change 255 with (Z.ones 8). rewrite Z.land_ones by lia.
  apply Z.mod_pos_bound. lia.
Qed.

(** [exit] called with the status word of a normal exit gives code 0,
    whatever the exit code of the child was. *)
Lemma exit_code_of_exited code : exit_code (wait_status (Exited code)) = 0.
Proof.
  destruct (exit_code_range code) as [Hlo Hhi]. unfold exit_code in *.
  unfold wait_status. apply Z.eqb_eq.
  apply (checked_below (fun m => Z.land (W_EXITCODE m 0) 255 =? 0) 256);
    [vm_compute; reflexivity | split; [exact Hlo | exact Hhi]].
Qed.

Lemma exit_code_of_signaled sig core :
  1 <= sig < 127 ->
  exit_code (wait_status (Signaled sig core)) = if core then sig + 128 else sig.
Proof.
  intros Hsig. apply Z.eqb_eq.
  assert (Hall := checked_below
            (fun s => exit_code (wait_status (Signaled s core))
                      =? (if core then s + 128 else s)) 127).
  cbv beta in Hall. apply Hall; [destruct core; vm_compute; reflexivity | lia].
Qed.

Lemma exit_shell_unfold :
  forall finished st,
    exists evs code,
      exit_shell finished st
      = ((evs ++ [EvExit code])%list,
         Exits code (children (snd (wait_for_children finished st))))
      /\ evs = fst (wait_for_children finished st)
      /\ code = exit_code (fold_left note_collected evs (status st))
      /\ 0 <= code < 256.
Proof.
  intros finished st. unfold exit_shell.
  pose proof (wait_for_children_status finished st) as Hst.
  destruct (wait_for_children finished st) as [evs st'].
  exists evs, (exit_code (status st')). cbn [fst snd].
  rewrite <- (Hst evs st' eq_refl).
  repeat split; apply exit_code_range.
Qed.

(** The [exit] built-in after a child that exited normally: the shell
    exits with code 0 whatever the child's exit code was; after a child
    killed by a signal, with the number [get_status] prints. *)
Theorem exit_builtin_code :
  forall v t st,
    forallb (fun c => negb (reapable (t_finished t) c)) (children st) = true ->
    body v t ("exit" ++ nl) st
    = ([EvExit (exit_code (status st))],
       Stop (Exits (exit_code (status st)) (children st)))
    /\ (forall code, status st = wait_status (Exited code) ->
                     exit_code (status st) = 0)
    /\ (forall sig core, 1 <= sig < 127 ->
                         status st = wait_status (Signaled sig core) ->
                         exit_code (status st) = if core then sig + 128 else sig).
Proof.
  intros v t st Hnone. split; [| split].
  - unfold body. cbn. unfold exit_shell.
    rewrite (wait_for_children_nothing _ _ Hnone). reflexivity.
  - intros code ->. apply exit_code_of_exited.
  - intros sig core Hsig ->. apply exit_code_of_signaled. exact Hsig.
Qed.

(** *** What ends the shell *)

Lemma poll_has_no_exit finished :
  forall st, existsb is_exit (fst (wait_for_children finished st)) = false.
Proof.
  induction finished as [| pid more IH]; intros st; cbn; [reflexivity |].
  destruct (take pid (children st)) as [[[p [ws |]] others] |]; try apply IH.
  specialize (IH {| status := ws; commands0 := commands0 st; children := others |}).
  destruct (wait_for_children more _) as [evs st1]. cbn in *.
  rewrite existsb_app, IH, orb_false_r.
  unfold get_status. destruct (WIFEXITED ws); reflexivity.
Qed.

Lemma body_exits :
  forall v t input st evs code left,
    body v t input st = (evs, Stop (Exits code left)) ->
    exists c pre,
      read_command input = inr c
      /\ (hd (commands0 st) (args c) = "exit" \/ t_fork t = None)
      /\ evs = (pre ++ [EvExit code])%list
      /\ existsb is_exit pre = false
      /\ 0 <= code < 256.
Proof.
  intros v t input st evs code left. unfold body.
  destruct (read_command input) as [f | c]; [discriminate |].
  destruct (dispatch v t c st) as [evs1 [st1 | r]] eqn:Hd.
  { destruct (wait_for_children (t_finished t) st1). discriminate. }
  intros H. inversion H; subst; clear H.
  exists c. revert Hd. unfold dispatch.
  replace (match args c with [] => commands0 st | a :: _ => a end)
    with (hd (commands0 st) (args c)) by (destruct (args c); reflexivity).
  set (first := hd (commands0 st) (args c)).
  destruct ((first =? "")%string || (first =? nl)%string); [discriminate |].
  destruct (starts_with_hash first); [discriminate |].
  destruct (first =? "cd")%string.
  { destruct (args c); discriminate. }
  destruct (first =? "status")%string; [discriminate |].
  destruct (first =? "exit")%string eqn:Hexit.
  { destruct (exit_shell_unfold (t_finished t) st) as [pre [k [Heq [Hpre [_ Hk]]]]].
    rewrite Heq. intros H; inversion H; subst.
    exists (fst (wait_for_children (t_finished t) st)).
    apply String.eqb_eq in Hexit.
    repeat split; auto; try apply Hk. apply poll_has_no_exit. }
  destruct (args c) as [| a rest]; [discriminate |].
  unfold handle_fork_exec. destruct (t_fork t) as [[pid prog] |].
  - destruct (fg c).
    + rewrite take_head. destruct (child_status _ prog); discriminate.
    + discriminate.
  - destruct (exit_shell_unfold (t_finished t)
                {| status := 1; commands0 := commands0 st; children := children st |})
      as [pre [k [Heq [Hpre [_ Hk]]]]].
    rewrite Heq. intros H; inversion H; subst.
    eexists (EvErr ("error in fork" ++ nl) :: _).
    repeat split; auto; try apply Hk. cbn [existsb is_exit orb].
    apply poll_has_no_exit.
Qed.

(** *** The child *)


(** A command that [execvp] cannot start, after redirections that
    succeeded: the output file has been created or truncated all the
    same, and the child names the command and ends with [exit(1)]. *)
Theorem unknown_command :
  forall v sys c,
    (forall path flags, open_ok sys path flags = true) ->
    (forall fd, dup2_ok sys fd = true) ->
    execvp_ok sys (hd "" (args c)) = false ->
    ending (child_side v sys c)
    = ChildExit 1 ("smallsh did not recognize the command: "
                     ++ hd "" (args c) ++ nl)
    /\ ((output_filename c =? "")%string = false ->
        In {| o_path := output_filename c;
              o_flags := [O_WRONLY; O_CREAT; O_TRUNC];
              o_mode := Some (out_mode v) |}
           (opened (setup (child_side v sys c)))).
Proof.
  intros v sys c Hopen Hdup Hexec. unfold child_side, redirect.
  rewrite Hexec.
  destruct (to_open c) as [path |]; cbn; rewrite ?Hopen, ?Hdup; cbn;
    destruct (output_filename c =? "")%string; cbn; rewrite ?Hopen, ?Hdup; cbn;
    (split; [reflexivity |]); intros H; try discriminate; cbn; auto.
Qed.

(** *** Background children *)

(** A background command leaves the stored status alone and adds the
    child to the children of the shell; a poll that finds it terminated
    reports it, stores its status word and gives back the children as
    they were. *)
Theorem background_launch_then_poll :
  forall v t c st pid prog,
    fg c = false ->
    t_fork t = Some (pid, prog) ->
    exists run st1,
      handle_fork_exec v t c st
      = ([EvFork pid c run;
          EvOut (bg_word v ++ " process id number " ++ fmt_d (Zpos pid) ++ nl)],
         Continue st1)
      /\ run = child_side v (t_sys t) c
      /\ status st1 = status st
      /\ children st1 = {| c_pid := pid; will_end := child_status run prog |}
                          :: children st
      /\ forall ws,
           child_status run prog = Some ws ->
           wait_for_children [pid] st1
           = (report {| c_pid := pid; will_end := Some ws |},
              {| status := ws; commands0 := commands0 st; children := children st |}).
Proof.
  intros v t c st pid prog Hbg Hfork. unfold handle_fork_exec.
  rewrite Hfork, Hbg. eexists _, _. split; [reflexivity |].
  split; [reflexivity |]. split; [reflexivity |]. split; [reflexivity |].
  intros ws Hws.
  cbn [wait_for_children children]. rewrite Hws, take_head.
  unfold report. cbn. rewrite app_nil_r. reflexivity.
Qed.

(** *** The run as a whole *)

Lemma status_lines_not_prompt ws :
  existsb is_prompt (map EvOut (get_status ws)) = false.
Proof. unfold get_status. destruct (WIFEXITED ws); reflexivity. Qed.

Lemma status_lines_not_exit ws :
  existsb is_exit (map EvOut (get_status ws)) = false.
Proof. unfold get_status. destruct (WIFEXITED ws); reflexivity. Qed.

Lemma poll_has_no_prompt finished :
  forall st, existsb is_prompt (fst (wait_for_children finished st)) = false.
Proof.
  induction finished as [| pid more IH]; intros st; cbn; [reflexivity |].
  destruct (take pid (children st)) as [[[p [ws |]] others] |]; try apply IH.
  specialize (IH {| status := ws; commands0 := commands0 st; children := others |}).
  destruct (wait_for_children more _) as [evs st1]. cbn in *.
  rewrite existsb_app, IH, status_lines_not_prompt. reflexivity.
Qed.

Lemma background_line_not_prompt word pid :
  is_prompt (EvOut (word ++ " process id number " ++ fmt_d (Zpos pid) ++ nl)) = false.
Proof.
  cbn [is_prompt]. apply String.eqb_neq. intros H.
  apply (f_equal String.length) in H. rewrite !length_append in H.
  cbn in H. lia.
Qed.

Lemma handle_fork_exec_events v t c st :
  existsb is_prompt (fst (handle_fork_exec v t c st)) = false
  /\ forall st', snd (handle_fork_exec v t c st) = Continue st' ->
                 existsb is_exit (fst (handle_fork_exec v t c st)) = false.
Proof.
  unfold handle_fork_exec, exit_shell.
  destruct (t_fork t) as [[pid prog] |].
  - destruct (fg c).
    + rewrite take_head. destruct (child_status _ prog) as [ws |]; cbn.
      * destruct (report_fg v); cbn;
          rewrite ?status_lines_not_prompt, ?status_lines_not_exit; auto.
      * split; [reflexivity | discriminate].
    + cbn [fst snd existsb]. rewrite background_line_not_prompt. cbn. auto.
  - pose proof (poll_has_no_prompt (t_finished t)
                  {| status := 1; commands0 := commands0 st; children := children st |})
      as Hno.
    destruct (wait_for_children _ _) as [evs st1]. cbn in *.
    rewrite existsb_app, Hno. cbn. split; [reflexivity | discriminate].
Qed.

Lemma dispatch_events v t c st :
  existsb is_prompt (fst (dispatch v t c st)) = false
  /\ forall st', snd (dispatch v t c st) = Continue st' ->
                 existsb is_exit (fst (dispatch v t c st)) = false.
Proof.
  unfold dispatch, exit_shell.
  set (first := match args c with [] => commands0 st | a :: _ => a end).
  destruct ((first =? "")%string || (first =? nl)%string); [cbn; auto |].
  destruct (starts_with_hash first); [cbn; auto |].
  destruct (first =? "cd")%string.
  { destruct (args c) as [| a rest]; [cbn; auto |]. destruct rest; cbn; auto. }
  destruct (first =? "status")%string.
  { cbn. rewrite status_lines_not_prompt, status_lines_not_exit. auto. }
  destruct (first =? "exit")%string.
  { pose proof (poll_has_no_prompt (t_finished t) st) as Hno.
    destruct (wait_for_children _ _) as [evs st1]. cbn in *.
    rewrite existsb_app, Hno. cbn. split; [reflexivity | discriminate]. }
  destruct (args c); [cbn; auto | apply handle_fork_exec_events].
Qed.

Lemma body_events v t input st :
  existsb is_prompt (fst (body v t input st)) = false
  /\ forall st', snd (body v t input st) = Continue st' ->
                 existsb is_exit (fst (body v t input st)) = false.
Proof.
  unfold body. destruct (read_command input) as [f | c]; [cbn; auto |].
  destruct (dispatch_events v t c st) as [Hp He].
  destruct (dispatch v t c st) as [evs [st1 | r]]; cbn in *.
  - pose proof (poll_has_no_prompt (t_finished t) st1) as Hno.
    pose proof (poll_has_no_exit (t_finished t) st1) as Hne.
    destruct (wait_for_children (t_finished t) st1) as [reaped st2]. cbn in *.
    rewrite !existsb_app, Hp, Hno, Hne, (He st1 eq_refl). auto.
  - split; [exact Hp | discriminate].
Qed.

Lemma filter_none (A : Type) (p : A -> bool) l :
  existsb p l = false -> filter p l = [].
Proof.
  induction l as [| a l IH]; cbn; [reflexivity |].
  destruct (p a); cbn; [discriminate | exact IH].
Qed.

(** A run that has ended with [exit] shows the [exit] as its last event
    and no other. *)
Theorem shell_loop_exit_last :
  forall v ticks stdin st tr code left,
    shell_loop v ticks stdin st = (tr, Ended (Exits code left)) ->
    exists pre,
      tr = (pre ++ [EvExit code])%list
      /\ existsb is_exit pre = false
      /\ 0 <= code < 256.
Proof.
  intros v ticks. induction ticks as [| t later IH]; intros stdin st tr code left; cbn.
  - discriminate.
  - destruct (prompt stdin) as [[input stdin'] |].
    + destruct (body_events v t input st) as [_ Hnoexit].
      pose proof (body_exits v t input st) as Hcause.
      destruct (body v t input st) as [evs [st1 | r]].
      * destruct (shell_loop v later stdin' st1) as [evs' p] eqn:Hloop.
        intros H; inversion H; subst; clear H.
        destruct (IH _ _ _ _ _ Hloop) as [pre [Htr [Hpre Hcode]]].
        exists (PROMPT :: evs ++ pre)%list. subst evs'.
        split; [cbn; rewrite app_assoc; reflexivity |].
        split; [| exact Hcode].
        specialize (Hnoexit st1 eq_refl). cbn [fst] in Hnoexit.
        cbn [existsb is_exit PROMPT orb]. rewrite existsb_app, Hpre, Hnoexit.
        reflexivity.
      * intros H; inversion H; subst; clear H.
        destruct (Hcause _ _ _ eq_refl) as [c [pre [_ [_ [Hevs [Hpre Hcode]]]]]].
        exists (PROMPT :: pre). subst evs. split; [reflexivity |].
        split; [exact Hpre | exact Hcode].
    + intros H; inversion H; subst. exists [PROMPT].
      split; [reflexivity | split; [reflexivity | lia]].
Qed.

(** ** The foreground wait *)

Section ForegroundWait.

Lemma handle_fork_exec_foreground v t c st pid prog :
  t_fork t = Some (pid, prog) ->
  fg c = true ->
  handle_fork_exec v t c st
  = match child_status (child_side v (t_sys t) c) prog with
    | Some ws =>
        (EvFork pid c (child_side v (t_sys t) c) :: EvWaitFg pid ws
           :: (if report_fg v then map EvOut (get_status ws) else []),
         Continue (waited ws st))
    | None => ([EvFork pid c (child_side v (t_sys t) c)], Stop (Blocked pid))
    end.
Proof.
  intros Hfork Hfg. unfold handle_fork_exec. rewrite Hfork, Hfg, take_head.
  destruct (child_status (child_side v (t_sys t) c) prog); reflexivity.
Qed.

Lemma dispatch_external v t c st :
  external c = true -> dispatch v t c st = handle_fork_exec v t c st.
Proof.
  unfold external, dispatch. destruct (args c) as [| first rest]; [discriminate |].
  destruct (first =? "")%string; [discriminate |].
  destruct (first =? nl)%string; [discriminate |].
  destruct (starts_with_hash first); [discriminate |].
  destruct (first =? "cd")%string; [discriminate |].
  destruct (first =? "status")%string; [discriminate |].
  destruct (first =? "exit")%string; [discriminate |].
  reflexivity.
Qed.

(** One pass through the body for a foreground command that reaches
    [fork]: the wait on the child, then the poll, or the wait alone and
    for ever. *)
Lemma body_foreground v t input st c pid prog :
  read_command input = inr c ->
  external c = true ->
  fg c = true ->
  t_fork t = Some (pid, prog) ->
  body v t input st
  = match child_status (child_side v (t_sys t) c) prog with
    | Some ws =>
        ((EvFork pid c (child_side v (t_sys t) c) :: EvWaitFg pid ws
            :: (if report_fg v then map EvOut (get_status ws) else []))
           ++ fst (wait_for_children (t_finished t) (waited ws st)),
         Continue
           (reset_command_array
              (snd (wait_for_children (t_finished t) (waited ws st)))))%list
    | None => ([EvFork pid c (child_side v (t_sys t) c)], Stop (Blocked pid))
    end.
Proof.
  intros Hread Hext Hfg Hfork. unfold body.
  rewrite Hread, (dispatch_external _ _ _ _ Hext),
    (handle_fork_exec_foreground _ _ _ _ _ _ Hfork Hfg).
  destruct (child_status (child_side v (t_sys t) c) prog) as [ws |]; [| reflexivity].
  destruct (wait_for_children (t_finished t) (waited ws st)) as [reaped st2].
  reflexivity.
Qed.

Lemma handle_fork_exec_front v t c st :
  fork_in_front v t (fst (handle_fork_exec v t c st))
    (snd (handle_fork_exec v t c st)).
Proof.
  destruct (t_fork t) as [[pid prog] |] eqn:Hfork.
  - right. destruct (fg c) eqn:Hfg.
    + rewrite (handle_fork_exec_foreground _ _ _ _ _ _ Hfork Hfg).
      destruct (child_status (child_side v (t_sys t) c) prog) as [ws |] eqn:Hws; cbn.
      * eexists _, _, _. split; [reflexivity |]. split.
        -- intros q sp rn [H | H]; [discriminate |].
           destruct (report_fg v); [exact (no_forks_out _ _ _ _ H) | destruct H].
        -- split; [exists prog; exact Hfork |].
           intros _. exists prog. split; [exact Hfork |]. rewrite Hws.
           eexists. reflexivity.
      * eexists _, _, _. split; [reflexivity |]. split; [intros q sp rn [] |].
        split; [exists prog; exact Hfork |].
        intros _. exists prog. split; [exact Hfork |]. rewrite Hws.
        split; reflexivity.
    + unfold handle_fork_exec. rewrite Hfork, Hfg. cbn.
      eexists _, _, _. split; [reflexivity |]. split.
      * intros q sp rn [H | []]. discriminate.
      * split; [exists prog; reflexivity |]. rewrite Hfg. discriminate.
  - left. unfold handle_fork_exec, exit_shell. rewrite Hfork.
    pose proof (no_forks_poll (t_finished t)
                  {| status := 1; commands0 := commands0 st; children := children st |})
      as Hno.
    destruct (wait_for_children _ _) as [evs st1]. cbn in *.
    intros q sp rn [H | H]; [discriminate |].
    apply in_app_or in H.
    destruct H as [H | [H | []]]; [exact (Hno _ _ _ H) | discriminate].
Qed.

Lemma dispatch_front v t c st :
  fork_in_front v t (fst (dispatch v t c st)) (snd (dispatch v t c st)).
Proof.
  unfold dispatch, exit_shell.
  set (first := match args c with [] => commands0 st | a :: _ => a end).
  destruct ((first =? "")%string || (first =? nl)%string); [left; intros q sp rn [] |].
  destruct (starts_with_hash first); [left; intros q sp rn [] |].
  destruct (first =? "cd")%string.
  { left. destruct (args c) as [| a rest]; [intros q sp rn [] |].
    destruct rest; cbn; intros q sp rn [H | []]; discriminate. }
  destruct (first =? "status")%string; [left; apply no_forks_out |].
  destruct (first =? "exit")%string.
  { left. pose proof (no_forks_poll (t_finished t) st) as Hno.
    destruct (wait_for_children _ _) as [evs st1]. cbn in *.
    apply no_forks_app; [exact Hno |]. intros q sp rn [H | []]. discriminate. }
  destruct (args c); [left; intros q sp rn [] | apply handle_fork_exec_front].
Qed.

Lemma body_front v t input st :
  fork_in_front v t (fst (body v t input st)) (snd (body v t input st)).
Proof.
  unfold body. destruct (read_command input) as [f | c]; [left; intros q sp rn [] |].
  pose proof (dispatch_front v t c st) as Hd.
  destruct (dispatch v t c st) as [evs [st1 | r]]; [| exact Hd].
  pose proof (no_forks_poll (t_finished t) st1) as Hno.
  destruct (wait_for_children (t_finished t) st1) as [reaped st2]. cbn in *.
  destruct Hd as [Hnone | [pid [spec [tail [Hevs [Htail [Hprog Hwait]]]]]]].
  - left. apply no_forks_app; assumption.
  - right. exists pid, spec, (tail ++ reaped)%list. subst evs.
    split; [reflexivity |]. split; [apply no_forks_app; assumption |].
    split; [exact Hprog |].
    intros Hfg. destruct (Hwait Hfg) as [prog [Hfork Hnext]].
    exists prog. split; [exact Hfork |].
    destruct (child_status (child_side v (t_sys t) spec) prog) as [ws |].
    + destruct Hnext as [rest Ht]. exists (rest ++ reaped)%list. subst tail.
      reflexivity.
    + destruct Hnext as [_ Hstop]. discriminate.
Qed.

(** In the events of one pass, a foreground [fork] is the first event,
    it is the [fork] of this iteration, and the wait stands behind it. *)
Lemma body_fork_waits v t input st pre pid spec run mid :
  fst (body v t input st) = (pre ++ EvFork pid spec run :: mid)%list ->
  fg spec = true ->
  pre = []
  /\ run = child_side v (t_sys t) spec
  /\ foreground_wait v t pid spec mid
       (snd (body v t input st) = Stop (Blocked pid)).
Proof.
  intros Hevs Hfg.
  destruct (body_front v t input st)
    as [Hnone | [pid0 [spec0 [tail [Hshape [Htail [_ Hwait]]]]]]].
  - exfalso. apply (Hnone pid spec run). rewrite Hevs.
    apply in_or_app. right. left. reflexivity.
  - rewrite Hshape in Hevs. destruct pre as [| e pre]; cbn in Hevs.
    + inversion Hevs; subst. split; [reflexivity |]. split; [reflexivity |].
      exact (Hwait Hfg).
    + exfalso. inversion Hevs; subst. apply (Htail pid spec run).
      apply in_or_app. right. left. reflexivity.
Qed.

Lemma fork_tick_first t later :
  fork_tick (t :: later) [PROMPT] = Some t.
Proof. reflexivity. Qed.

Lemma fork_tick_later t later evs pre t' :
  existsb is_prompt evs = false ->
  fork_tick later pre = Some t' ->
  fork_tick (t :: later) (PROMPT :: evs ++ pre) = Some t'.
Proof.
  intros Hno. unfold fork_tick. cbn [filter is_prompt PROMPT].
  change (": " =? ": ")%string with true. cbn iota.
  rewrite filter_app, (filter_none _ _ _ Hno). cbn [app].
  destruct (filter is_prompt pre) as [| e earlier]; [discriminate |].
  intros H. exact H.
Qed.

(** In the events of a run, a foreground [fork] belongs to the iteration
    of the last prompt before it, and the wait on the child of that
    iteration stands behind it. *)
Lemma shell_loop_fork_waits v ticks :
  forall stdin st pre pid spec run post,
    fst (shell_loop v ticks stdin st) = (pre ++ EvFork pid spec run :: post)%list ->
    fg spec = true ->
    exists t,
      fork_tick ticks pre = Some t
      /\ run = child_side v (t_sys t) spec
      /\ foreground_wait v t pid spec post
           (snd (shell_loop v ticks stdin st) = Ended (Blocked pid)).
Proof.
  induction ticks as [| t later IH]; intros stdin st pre pid spec run post; cbn.
  - destruct pre; discriminate.
  - destruct (prompt stdin) as [[input stdin'] |].
    + pose proof (body_fork_waits v t input st) as Hbody.
      destruct (body_events v t input st) as [Hquiet _].
      destruct (body v t input st) as [evs [st1 | r]]; cbn in Hbody, Hquiet.
      * specialize (IH stdin' st1).
        destruct (shell_loop v later stdin' st1) as [evs' p]. cbn in *.
        destruct pre as [| e pre]; [discriminate |].
        intros H Hfg. inversion H; subst e; clear H.
        destruct (split_in_app _ _ _ _ _ _ H2) as [[mid [H1 Hp]] | [pre' [H1 Hp]]].
        -- destruct (Hbody _ _ _ _ _ H1 Hfg) as [Hpre [Hrun [prog [Hfork Hnext]]]].
           exists t. subst pre. split; [reflexivity |]. split; [exact Hrun |].
           exists prog. split; [exact Hfork |].
           destruct (child_status (child_side v (t_sys t) spec) prog) as [ws |].
           ++ destruct Hnext as [rest Hm]. exists (rest ++ evs')%list. subst.
              reflexivity.
           ++ destruct Hnext as [_ Hstop]. discriminate.
        -- destruct (IH _ _ _ _ _ Hp Hfg) as [t' [Htick Hrest]].
           exists t'. split; [| exact Hrest]. subst pre.
           exact (fork_tick_later _ _ _ _ _ Hquiet Htick).
      * cbn. destruct pre as [| e pre]; [discriminate |].
        intros H Hfg. inversion H; subst e; clear H.
        destruct (Hbody _ _ _ _ _ H2 Hfg) as [Hpre [Hrun [prog [Hfork Hnext]]]].
        exists t. subst pre. split; [reflexivity |]. split; [exact Hrun |].
        exists prog. split; [exact Hfork |].
        destruct (child_status (child_side v (t_sys t) spec) prog) as [ws |].
        -- exact Hnext.
        -- destruct Hnext as [Hnil Hstop]. split; [exact Hnil |].
           inversion Hstop. reflexivity.
    + cbn. destruct pre as [| e [| e' [| e'' pre]]]; discriminate.
Qed.

End ForegroundWait.

(** C7: the shell blocks on the child of a foreground command, and the
    next prompt comes after that child has ended.

    First part, one iteration.  The line read at the prompt holds no
    token [&], its first argument is none of the texts the loop handles
    itself, and [fork] returns the child [pid], whose program ends as
    [prog] ([None]: it never ends).  Then the command is a foreground
    command, and the shell prints the prompt, forks, and calls
    [waitpid(pid, status, 0)].  When the child ends, with the status
    word [ws], the call returns with [pid] and [ws], and only then follow
    the report of [part_000], the poll, and the rest of the run with the
    next prompt.  When the child never ends, nothing follows the [fork]:
    the shell stays blocked on [pid] however much input and however many
    iterations are left.

    Second part, every run.  Every [fork] of a foreground child in the
    events of a run is the [fork] of the iteration [t] of the last prompt
    before it; the child runs as [handle_fork_exec] sets it up in that
    iteration; the next event is the return of the wait on exactly this
    child with the status word of this child, or there is no next event
    and the run has ended blocked on the child.  A prompt behind the
    [fork] therefore stands behind the return of the wait. *)
Theorem foreground_wait_precedes_prompt :
  (forall v t later stdin st input stdin' c pid prog,
      prompt stdin = Some (input, stdin') ->
      read_command input = inr c ->
      ~ In "&" (strtok input) ->
      external c = true ->
      t_fork t = Some (pid, prog) ->
      fg c = true
      /\ match child_status (child_side v (t_sys t) c) prog with
         | Some ws =>
             shell_loop v (t :: later) stdin st
             = (PROMPT
                  :: EvFork pid c (child_side v (t_sys t) c)
                  :: EvWaitFg pid ws
                  :: (if report_fg v then map EvOut (get_status ws) else [])
                  ++ fst (wait_for_children (t_finished t) (waited ws st))
                  ++ fst (shell_loop v later stdin'
                            (reset_command_array
                               (snd (wait_for_children (t_finished t)
                                       (waited ws st))))),
                snd (shell_loop v later stdin'
                       (reset_command_array
                          (snd (wait_for_children (t_finished t)
                                  (waited ws st))))))%list
         | None =>
             shell_loop v (t :: later) stdin st
             = ([PROMPT; EvFork pid c (child_side v (t_sys t) c)],
                Ended (Blocked pid))
         end)
  /\ (forall v heap ticks stdin tr p pre pid spec run post,
        run_shell v heap ticks stdin = (tr, p) ->
        tr = (pre ++ EvFork pid spec run :: post)%list ->
        fg spec = true ->
        exists t prog,
          fork_tick ticks pre = Some t
          /\ t_fork t = Some (pid, prog)
          /\ run = child_side v (t_sys t) spec
          /\ match child_status run prog with
             | Some ws => exists rest, post = EvWaitFg pid ws :: rest
             | None => post = [] /\ p = Ended (Blocked pid)
             end
          /\ (In PROMPT post ->
              exists ws rest,
                child_status run prog = Some ws
                /\ post = EvWaitFg pid ws :: rest
                /\ In PROMPT rest)).
Proof.
  split.
  - intros v t later stdin st input stdin' c pid prog
      Hprompt Hread Hno Hext Hfork.
    assert (Hfg : fg c = true).
    { unfold read_command in Hread.
      destruct (tokenize (strtok input) fresh_cmdline) as [f | c1] eqn:Htok;
        [discriminate |].
      destruct (COMMANDS <=? List.length (args c1))%nat; [discriminate |].
      inversion Hread; subst c1.
      exact (tokenize_keeps_fg _ _ _ Hno Htok). }
    split; [exact Hfg |].
    cbn [shell_loop]. rewrite Hprompt.
    rewrite (body_foreground v t input st c pid prog Hread Hext Hfg Hfork).
    destruct (child_status (child_side v (t_sys t) c) prog) as [ws |];
      [| reflexivity].
    destruct (shell_loop v later stdin'
                (reset_command_array
                   (snd (wait_for_children (t_finished t) (waited ws st)))))
      as [evs' r].
    cbn [fst snd app]. rewrite <- app_assoc. reflexivity.
  - intros v heap ticks stdin tr p pre pid spec run post Hrun Htr Hfg.
    unfold run_shell in Hrun.
    pose proof (shell_loop_fork_waits v ticks stdin
                  {| status := 0; commands0 := heap; children := [] |}
                  pre pid spec run post) as H.
    rewrite Hrun in H. cbn [fst snd] in H.
    destruct (H Htr Hfg) as [t [Htick [Hside [prog [Hfork Hnext]]]]].
    exists t, prog. subst run.
    split; [exact Htick |]. split; [exact Hfork |]. split; [reflexivity |].
    split; [exact Hnext |].
    intros Hprompt.
    destruct (child_status (child_side v (t_sys t) spec) prog) as [ws |].
    + destruct Hnext as [rest Hpost]. exists ws, rest.
      split; [reflexivity |]. split; [exact Hpost |].
      subst post. destruct Hprompt as [Heq | Hin]; [discriminate | exact Hin].
    + destruct Hnext as [Hnil _]. subst post. destruct Hprompt.
Qed.

Lemma foreground_wait_precedes_prompt_witness :
  let ls := {| args := ["ls"]; output_filename := ""; input_filename := "";
               fg := true |} in
  let st := {| status := 0; commands0 := ""; children := [] |} in
  let never := {| t_fork := Some (7%positive, None); t_sys := all_ok;
                  t_finished := [] |} in
  shell_loop smallsh_c [forks 7 (Exited 0) []; no_fork []] (lines ["ls"; ""]) st
  = ([PROMPT; EvFork 7 ls (child_side smallsh_c all_ok ls); EvWaitFg 7 0; PROMPT],
     Prompting st "")
  /\ shell_loop smallsh_c [never; no_fork []] (lines ["ls"; ""]) st
     = ([PROMPT; EvFork 7 ls (child_side smallsh_c all_ok ls)],
        Ended (Blocked 7))
  /\ exists t prog,
       fork_tick [forks 7 (Exited 0) []; no_fork []] [PROMPT] = Some t
       /\ t_fork t = Some (7%positive, prog)
       /\ child_side smallsh_c all_ok ls = child_side smallsh_c (t_sys t) ls
       /\ match child_status (child_side smallsh_c all_ok ls) prog with
          | Some ws => exists rest, [EvWaitFg 7 0; PROMPT] = EvWaitFg 7 ws :: rest
          | None =>
              [EvWaitFg 7 0; PROMPT] = []
              /\ Prompting st "" = Ended (Blocked 7)
          end
       /\ (In PROMPT [EvWaitFg 7 0; PROMPT] ->
           exists ws rest,
             child_status (child_side smallsh_c all_ok ls) prog = Some ws
             /\ [EvWaitFg 7 0; PROMPT] = EvWaitFg 7 ws :: rest
             /\ In PROMPT rest).
Proof.
  intros ls st never.
  assert (Hno : ~ In "&" (strtok ("ls" ++ nl))).
  { cbn. intros [H | []]. discriminate H. }
  split; [| split].
  - exact (proj2 (proj1 foreground_wait_precedes_prompt smallsh_c
                    (forks 7 (Exited 0) []) [no_fork []] (lines ["ls"; ""]) st
                    ("ls" ++ nl) (lines [""]) ls 7%positive (Some (Exited 0))
                    eq_refl eq_refl Hno eq_refl eq_refl)).
  - exact (proj2 (proj1 foreground_wait_precedes_prompt smallsh_c
                    never [no_fork []] (lines ["ls"; ""]) st
                    ("ls" ++ nl) (lines [""]) ls 7%positive None
                    eq_refl eq_refl Hno eq_refl eq_refl)).
  - exact (proj2 foreground_wait_precedes_prompt smallsh_c ""
             [forks 7 (Exited 0) []; no_fork []] (lines ["ls"; ""])
             _ _ [PROMPT] 7%positive ls (child_side smallsh_c all_ok ls)
             [EvWaitFg 7 0; PROMPT] eq_refl eq_refl eq_refl).
Defined.

(** ** Statements for the functions as a whole *)

(** The tokens of a line that was written with single spaces between the
    tokens and a newline at the end are the tokens it was written from,
    when each token is non-empty and holds no space, newline or NUL. *)
Theorem strtok_unwords :
  forall toks,
    Forall (fun tok => word_ok tok = true) toks ->
    strtok (unwords toks ++ nl) = toks.
Proof. exact strtok_of_unwords. Qed.

(** [exit_shell]: the poll, then [exit] with the low byte of the word the
    poll leaves in [status]; the code the system sees is below 256. *)
Theorem exit_shell_code :
  forall finished st,
    exists evs code,
      exit_shell finished st
      = ((evs ++ [EvExit code])%list,
         Exits code (children (snd (wait_for_children finished st))))
      /\ evs = fst (wait_for_children finished st)
      /\ code = exit_code (fold_left note_collected evs (status st))
      /\ 0 <= code < 256.
Proof. exact exit_shell_unfold. Qed.

(** A pass through the body ends the shell with [exit] only for the
    built-in [exit] and for a failed [fork]; the [exit] call is the last
    event of the pass and the only one. *)
Theorem body_exit_cause :
  forall v t input st evs code left,
    body v t input st = (evs, Stop (Exits code left)) ->
    exists c pre,
      read_command input = inr c
      /\ (hd (commands0 st) (args c) = "exit" \/ t_fork t = None)
      /\ evs = (pre ++ [EvExit code])%list
      /\ existsb is_exit pre = false
      /\ 0 <= code < 256.
Proof. exact body_exits. Qed.

(** [get_status] on the status word of every way a child can end: the
    exit form with the low byte of the exit code, the signal form with
    the status word (the signal number, plus 128 after a core dump); the
    two never print the same. *)
Theorem get_status_report :
  (forall code,
      get_status (wait_status (Exited code))
      = ["The process exited normally" ++ nl;
         "The exit status was " ++ fmt_d (exit_code code) ++ nl])
  /\ (forall sig core,
        1 <= sig < 127 ->
        get_status (wait_status (Signaled sig core))
        = ["The process was terminated by a signal "
             ++ fmt_d (if core then sig + 128 else sig) ++ nl]
        /\ forall code,
             get_status (wait_status (Exited code))
             <> get_status (wait_status (Signaled sig core))).
Proof.
  split; [exact get_status_exited |].
  intros sig core Hsig. split; [exact (get_status_signaled sig core Hsig) |].
  intros code. exact (get_status_forms_differ code sig core Hsig).
Qed.

(** The built-ins [cd] and [status] run in the shell itself, whatever
    redirections or [&] the line carries: [cd] is one [chdir], to its
    first operand or to [HOME], with no report; [status] prints the stored
    status; neither forks, and neither changes the stored status or the
    children. *)
Theorem cd_and_status :
  forall v t c st rest,
    (args c = "cd" :: rest ->
     dispatch v t c st = ([EvChdir (hd_error rest)], Continue st))
    /\ (args c = "status" :: rest ->
        dispatch v t c st = (map EvOut (get_status (status st)), Continue st)).
Proof.
  intros v t c st rest. unfold dispatch. split; intros ->; cbn.
  - destruct rest; reflexivity.
  - reflexivity.
Qed.

(** ** The statements at work *)

Lemma prompt_reads_prefix_witness :
  lines ["ls"; "pwd"] = ("ls" ++ nl) ++ ("pwd" ++ nl)
  /\ (1 <= String.length ("ls" ++ nl) <= 2048)%nat.
Proof. exact (prompt_reads_prefix (lines ["ls"; "pwd"]) _ _ eq_refl). Defined.

Lemma prompt_line_shape_witness :
  exists text,
    no_newline text = true
    /\ ("ls" ++ nl = text ++ nl
        \/ ("ls" ++ nl = text
            /\ (String.length ("ls" ++ nl) = 2048%nat \/ "pwd" ++ nl = ""))).
Proof. exact (prompt_line_shape (lines ["ls"; "pwd"]) _ _ eq_refl). Defined.

Lemma strtok_unwords_witness :
  strtok (unwords ["ls"; "-l"] ++ nl) = ["ls"; "-l"].
Proof.
  apply strtok_unwords. repeat constructor.
Defined.

Lemma read_command_render_witness :
  read_command ("wc < in.txt > out.txt &" ++ nl)
  = inr {| args := ["wc"]; output_filename := "out.txt";
           input_filename := "in.txt"; fg := false |}.
Proof.
  exact (read_command_render
           {| args := ["wc"]; output_filename := "out.txt";
              input_filename := "in.txt"; fg := false |} eq_refl eq_refl eq_refl).
Defined.

Lemma background_line_ignores_rest_witness :
  read_command ("sleep 1 & >" ++ nl)
  = inr {| args := ["sleep"; "1"]; output_filename := "";
           input_filename := ""; fg := false |}.
Proof.
  exact (background_line_ignores_rest ("sleep 1 &" ++ nl) ("sleep 1 & >" ++ nl)
           [">"] _ eq_refl eq_refl eq_refl).
Defined.

Lemma read_command_from_line_witness :
  (List.length ["ls"; "-l"] < COMMANDS)%nat.
Proof.
  exact (proj1 (proj2 (read_command_from_line ("ls -l" ++ nl)
                         {| args := ["ls"; "-l"]; output_filename := "";
                            input_filename := ""; fg := true |} eq_refl))).
Defined.

Lemma short_line_is_safe_witness :
  read_command ("ls >" ++ nl) = inl StrcpyNull
  \/ exists c, read_command ("ls >" ++ nl) = inr c.
Proof.
  apply short_line_is_safe. apply Nat.ltb_lt. reflexivity.
Defined.

Lemma get_status_report_witness :
  get_status (wait_status (Signaled 2 false))
  = ["The process was terminated by a signal " ++ fmt_d 2 ++ nl].
Proof.
  refine (proj1 (proj2 get_status_report 2 false _)). lia.
Defined.

Lemma cd_and_status_witness :
  dispatch smallsh_c (no_fork [])
    {| args := ["cd"; "/tmp"; "x"]; output_filename := "out";
       input_filename := ""; fg := false |}
    {| status := 256; commands0 := ""; children := [] |}
  = ([EvChdir (Some "/tmp")],
     Continue {| status := 256; commands0 := ""; children := [] |}).
Proof.
  exact (proj1 (cd_and_status smallsh_c (no_fork [])
                  {| args := ["cd"; "/tmp"; "x"]; output_filename := "out";
                     input_filename := ""; fg := false |}
                  {| status := 256; commands0 := ""; children := [] |}
                  ["/tmp"; "x"]) eq_refl).
Defined.

Lemma wait_for_children_once_witness :
  let st := {| status := 0; commands0 := "";
               children := [ {| c_pid := 100; will_end := Some 0 |};
                             {| c_pid := 101; will_end := None |} ] |} in
  wait_for_children [100%positive; 101%positive]
    (snd (wait_for_children [100%positive; 101%positive] st))
  = ([], snd (wait_for_children [100%positive; 101%positive] st)).
Proof.
  intros st.
  refine (proj2 (wait_for_children_once [100%positive; 101%positive] st _)).
  cbn. constructor; [intros [H | []]; discriminate |].
  constructor; [intros [] | constructor].
Defined.

Lemma exit_builtin_code_witness :
  body smallsh_c (no_fork []) ("exit" ++ nl)
    {| status := wait_status (Exited 1); commands0 := ""; children := [] |}
  = ([EvExit 0], Stop (Exits 0 [])).
Proof.
  exact (proj1 (exit_builtin_code smallsh_c (no_fork [])
                  {| status := wait_status (Exited 1); commands0 := "";
                     children := [] |} eq_refl)).
Defined.

Lemma body_exit_cause_witness :
  exists c pre,
    read_command ("exit" ++ nl) = inr c
    /\ (hd "" (args c) = "exit" \/ t_fork (no_fork []) = None)
    /\ [EvExit 0] = (pre ++ [EvExit 0])%list
    /\ existsb is_exit pre = false
    /\ 0 <= 0 < 256.
Proof.
  exact (body_exit_cause smallsh_c (no_fork []) ("exit" ++ nl)
           {| status := 0; commands0 := ""; children := [] |}
           [EvExit 0] 0 [] eq_refl).
Defined.


Lemma unknown_command_witness :
  let sys := {| open_ok := fun _ _ => true; dup2_ok := fun _ => true;
                execvp_ok := fun _ => false |} in
  ending (child_side smallsh_c sys
            {| args := ["nosuch"]; output_filename := "out.txt";
               input_filename := ""; fg := true |})
  = ChildExit 1 ("smallsh did not recognize the command: " ++ "nosuch" ++ nl).
Proof.
  intros sys.
  refine (proj1 (unknown_command smallsh_c sys
                   {| args := ["nosuch"]; output_filename := "out.txt";
                      input_filename := ""; fg := true |} _ _ _));
    reflexivity.
Defined.

Lemma background_launch_then_poll_witness :
  exists run st1,
    handle_fork_exec smallsh_c (forks 7 (Exited 0) [])
      {| args := ["sleep"; "1"]; output_filename := "";
         input_filename := ""; fg := false |}
      {| status := 256; commands0 := ""; children := [] |}
    = ([EvFork 7 {| args := ["sleep"; "1"]; output_filename := "";
                    input_filename := ""; fg := false |} run;
        EvOut (bg_word smallsh_c ++ " process id number " ++ fmt_d 7 ++ nl)],
       Continue st1)
    /\ status st1 = 256.
Proof.
  destruct (background_launch_then_poll smallsh_c (forks 7 (Exited 0) [])
              {| args := ["sleep"; "1"]; output_filename := "";
                 input_filename := ""; fg := false |}
              {| status := 256; commands0 := ""; children := [] |}
              7%positive (Some (Exited 0)) eq_refl eq_refl)
    as [run [st1 [Hrun [_ [Hst _]]]]].
  exists run, st1. split; [exact Hrun | exact Hst].
Defined.

Lemma shell_loop_exit_last_witness :
  exists pre,
    fst (shell_loop smallsh_c [forks 7 (Exited 1) []; no_fork []]
           (lines ["false"; "exit"])
           {| status := 0; commands0 := ""; children := [] |})
    = (pre ++ [EvExit 0])%list
    /\ existsb is_exit pre = false
    /\ 0 <= 0 < 256.
Proof.
  exact (shell_loop_exit_last smallsh_c [forks 7 (Exited 1) []; no_fork []]
           (lines ["false"; "exit"])
           {| status := 0; commands0 := ""; children := [] |}
           _ 0 [] eq_refl).
Defined.

Lemma no_ampersand_is_foreground_witness :
  fg {| args := ["ls"; "-l"]; output_filename := "";
        input_filename := ""; fg := true |} = true.
Proof.
  refine (no_ampersand_is_foreground ("ls -l" ++ nl) _ _ eq_refl).
  cbn. intros [H | [H | []]]; discriminate.
Defined.

(** ** The memory of the commands array *)

Section CommandsArray.
Import Memory.
Local Open Scope nat_scope.

(** *** Allocation *)

Lemma alloc_strings_spec n :
  forall h,
    alloc_strings n h
    = (map Some (seq (next_block h) n),
       {| next_block := next_block h + n;
          live := live h ++ seq (next_block h) n |}).
Proof.
  induction n as [| n IH]; intros h.
  - cbn. rewrite Nat.add_0_r, app_nil_r. destruct h; reflexivity.
  - cbn [alloc_strings malloc]. rewrite IH. cbn [next_block live seq map].
    rewrite <- app_assoc. cbn [app].
    replace (S (next_block h) + n)%nat with (next_block h + S n)%nat by lia.
    reflexivity.
Qed.

Lemma is_live_in b h : is_live b h = true <-> In b (live h).
Proof.
  unfold is_live. rewrite existsb_exists. split.
  - intros [x [Hx Heq]]. apply Nat.eqb_eq in Heq. subst. exact Hx.
  - intros H. exists b. split; [exact H | apply Nat.eqb_refl].
Qed.

Lemma filter_twice (A : Type) (f g : A -> bool) l :
  filter f (filter g l) = filter (fun x => g x && f x) l.
Proof.
  induction l as [| a l IH]; cbn; [reflexivity |].
  destruct (g a); cbn; [destruct (f a); rewrite IH; reflexivity | exact IH].
Qed.

(** Freeing distinct live blocks removes exactly them. *)
Lemma free_strings_spec pointers :
  forall h,
    NoDup (blocks_of pointers) ->
    (forall b, In b (blocks_of pointers) -> In b (live h)) ->
    free_strings pointers (List.length pointers) h
    = Some {| next_block := next_block h;
              live := filter (fun x => negb (existsb (Nat.eqb x) (blocks_of pointers)))
                        (live h) |}.
Proof.
  induction pointers as [| p rest IH]; intros h Hnd Hin.
  - cbn. rewrite forallb_filter_id by (apply forallb_forall; reflexivity).
    destruct h; reflexivity.
  - cbn [List.length free_strings]. destruct p as [b |]; cbn [free].
    + cbn [blocks_of flat_map app] in Hnd, Hin. fold (blocks_of rest) in Hnd, Hin.
      inversion Hnd as [| ? ? Hnotin Hnd']; subst.
      assert (Hb : is_live b h = true) by (apply is_live_in, Hin; left; reflexivity).
      rewrite Hb. rewrite IH; [| exact Hnd' |].
      * cbn [next_block live]. f_equal. f_equal.
        rewrite filter_twice. apply filter_ext. intros x.
        cbn [blocks_of flat_map app existsb]. fold (blocks_of rest).
        rewrite negb_orb. reflexivity.
      * cbn [live]. intros x Hx. apply filter_In. split; [apply Hin; right; exact Hx |].
        apply negb_true_iff, Nat.eqb_neq. intros ->. exact (Hnotin Hx).
    + cbn [blocks_of flat_map app] in Hnd, Hin. fold (blocks_of rest) in Hnd, Hin.
      apply IH; assumption.
Qed.

Lemma blocks_of_some l : blocks_of (map Some l) = l.
Proof. induction l as [| b l IH]; cbn; [reflexivity | f_equal; exact IH]. Qed.

Lemma blocks_of_app l1 l2 : blocks_of (l1 ++ l2) = (blocks_of l1 ++ blocks_of l2)%list.
Proof. unfold blocks_of. apply flat_map_app. Qed.

Lemma store_null_at l1 :
  forall p l2, store_null (List.length l1) (l1 ++ p :: l2) = (l1 ++ None :: l2)%list.
Proof.
  induction l1 as [| q l1 IH]; intros p l2; cbn; [reflexivity |].
  rewrite IH. reflexivity.
Qed.

Lemma keep_all (f : nat -> bool) l :
  (forall x, In x l -> f x = true) -> filter f l = l.
Proof. intros H. apply forallb_filter_id, forallb_forall. exact H. Qed.

Lemma keep_none (f : nat -> bool) l :
  (forall x, In x l -> f x = false) -> filter f l = [].
Proof.
  induction l as [| a l IH]; intros H; cbn; [reflexivity |].
  rewrite (H a (or_introl eq_refl)). apply IH. intros x Hx. apply H. right. exact Hx.
Qed.

Lemma not_among x l : ~ In x l -> negb (existsb (Nat.eqb x) l) = true.
Proof.
  intros Hnot. apply negb_true_iff. destruct (existsb (Nat.eqb x) l) eqn:H; [| reflexivity].
  apply existsb_exists in H. destruct H as [y [Hy Heq]].
  apply Nat.eqb_eq in Heq. subst. contradiction.
Qed.

Lemma among x l : In x l -> negb (existsb (Nat.eqb x) l) = false.
Proof.
  intros Hin. apply negb_false_iff, existsb_exists. exists x.
  split; [exact Hin | apply Nat.eqb_refl].
Qed.

(** The array after [commands[i] = NULL], as [delete_char_array] finds
    it, and the heap it leaves: every string but the one [commands[i]]
    pointed to is freed. *)
Lemma delete_after_store n i h :
  heap_ok h ->
  (i < n)%nat ->
  delete_char_array
    {| base := next_block h;
       slots := store_null i (map Some (seq (S (next_block h)) n)) |}
    n
    {| next_block := S (next_block h) + n;
       live := (live h ++ [next_block h]) ++ seq (S (next_block h)) n |}
  = Some {| next_block := S (next_block h) + n;
            live := live h ++ [S (next_block h) + i] |}.
Proof.
  intros Hok Hi. set (k := next_block h).
  assert (Hsplit : seq (S k) n
                   = (seq (S k) i ++ (S k + i) :: seq (S (S k + i)) (n - S i))%list).
  { replace n with (i + S (n - S i))%nat at 1 by lia.
    rewrite seq_app. cbn [seq]. reflexivity. }
  assert (Hlen : List.length (seq (S k) i) = i) by apply length_seq.
  unfold delete_char_array. cbn [slots base].
  rewrite Hsplit at 1. rewrite map_app. cbn [map].
  rewrite <- Hlen at 1. rewrite <- (length_map Some (seq (S k) i)) at 1.
  rewrite store_null_at.
  set (pointers := (map Some (seq (S k) i)
                      ++ None :: map Some (seq (S (S k + i)) (n - S i)))%list).
  assert (Hblocks : blocks_of pointers
                    = (seq (S k) i ++ seq (S (S k + i)) (n - S i))%list).
  { unfold pointers. rewrite blocks_of_app. cbn [blocks_of flat_map app].
    fold (blocks_of (map Some (seq (S (S k + i)) (n - S i)))).
    rewrite !blocks_of_some. reflexivity. }
  assert (Hn : List.length pointers = n).
  { unfold pointers. rewrite length_app. cbn [List.length].
    rewrite !length_map, !length_seq. lia. }
  rewrite <- Hn at 1. rewrite free_strings_spec.
  - cbn [next_block live]. rewrite Hblocks.
    rewrite Hsplit, !filter_app. cbn [filter].
    rewrite (keep_all _ (live h)), (keep_none _ (seq (S k) i)),
      (keep_none _ (seq (S (S k + i)) (n - S i))).
    + rewrite !not_among.
      * cbn [app free]. unfold is_live. cbn [live next_block].
        rewrite !existsb_app. cbn [existsb]. rewrite Nat.eqb_refl.
        rewrite orb_true_r. cbn [orb]. f_equal. f_equal.
        rewrite !filter_app. cbn [filter].
        rewrite Nat.eqb_refl. cbn [negb].
        replace (S k + i =? k)%nat with false by (symmetry; apply Nat.eqb_neq; lia).
        cbn [negb app]. rewrite app_nil_r. rewrite keep_all; [reflexivity |].
        intros x Hx. apply negb_true_iff, Nat.eqb_neq.
        unfold heap_ok in Hok. rewrite Forall_forall in Hok.
        specialize (Hok x Hx). fold k in Hok. lia.
      * intros Hin. apply in_app_or in Hin. destruct Hin as [Hin | Hin];
          apply in_seq in Hin; lia.
      * intros Hin. apply in_app_or in Hin. destruct Hin as [Hin | Hin];
          apply in_seq in Hin; lia.
    + intros x Hx. apply among. apply in_or_app. right. exact Hx.
    + intros x Hx. apply among. apply in_or_app. left. exact Hx.
    + intros x Hx. apply not_among. intros Hin.
      unfold heap_ok in Hok. rewrite Forall_forall in Hok.
      specialize (Hok x Hx). fold k in Hok.
      apply in_app_or in Hin. destruct Hin as [Hin | Hin]; apply in_seq in Hin; lia.
  - rewrite Hblocks.
    pose proof (seq_NoDup n (S k)) as Hnd. rewrite Hsplit in Hnd.
    exact (NoDup_remove_1 _ _ _ Hnd).
  - rewrite Hblocks. cbn [live]. intros b Hb. apply in_or_app. right.
    rewrite Hsplit. apply in_app_or in Hb. apply in_or_app.
    destruct Hb as [Hb | Hb]; [left; exact Hb | right; right; exact Hb].
Qed.

Lemma create_char_array_spec n h :
  create_char_array n h
  = ({| base := next_block h; slots := map Some (seq (S (next_block h)) n) |},
     {| next_block := S (next_block h) + n;
        live := (live h ++ [next_block h]) ++ seq (S (next_block h)) n |}).
Proof. unfold create_char_array, malloc. rewrite alloc_strings_spec. reflexivity. Qed.

Lemma delete_untouched n h :
  heap_ok h ->
  delete_char_array
    {| base := next_block h; slots := map Some (seq (S (next_block h)) n) |}
    n
    {| next_block := S (next_block h) + n;
       live := (live h ++ [next_block h]) ++ seq (S (next_block h)) n |}
  = Some {| next_block := S (next_block h) + n; live := live h |}.
Proof.
  intros Hok. set (k := next_block h).
  assert (Hold : forall x, In x (live h) -> (x < k)%nat).
  { unfold heap_ok in Hok. rewrite Forall_forall in Hok. exact Hok. }
  unfold delete_char_array. cbn [slots base].
  pose proof (free_strings_spec (map Some (seq (S k) n))
                {| next_block := S k + n;
                   live := (live h ++ [k]) ++ seq (S k) n |}) as Hfree.
  rewrite length_map, length_seq, blocks_of_some in Hfree.
  rewrite Hfree.
  - cbn [next_block live].
    rewrite !filter_app. cbn [filter].
    rewrite (keep_all _ (live h)), (keep_none _ (seq (S k) n)).
    + rewrite not_among by (intros Hin; apply in_seq in Hin; lia).
      cbn [app free]. unfold is_live. cbn [live next_block].
      rewrite !existsb_app. cbn [existsb]. rewrite Nat.eqb_refl.
      rewrite orb_true_r. cbn [orb]. f_equal. f_equal.
      rewrite !filter_app. cbn [filter]. rewrite Nat.eqb_refl. cbn [negb app].
      rewrite !app_nil_r. rewrite keep_all; [reflexivity |].
      intros x Hx. apply negb_true_iff, Nat.eqb_neq. specialize (Hold x Hx). lia.
    + intros x Hx. apply among. exact Hx.
    + intros x Hx. apply not_among. intros Hin. specialize (Hold x Hx).
      apply in_seq in Hin. lia.
  - apply seq_NoDup.
  - cbn [live]. intros b Hb. apply in_or_app. right. exact Hb.
Qed.

(** Freeing an array right after it was created gives back the heap as it
    was: every block of the array is freed once. *)
Theorem create_then_delete :
  forall n h,
    heap_ok h ->
    delete_char_array (fst (create_char_array n h)) n (snd (create_char_array n h))
    = Some {| next_block := S (next_block h) + n; live := live h |}.
Proof.
  intros n h Hok. rewrite create_char_array_spec. cbn [fst snd].
  apply delete_untouched. exact Hok.
Qed.

(** One pass of the loop over the array: after [commands[i] = NULL] for a
    line with [i] arguments, [reset_command_array] frees every string but
    the one [commands[i]] pointed to, which stays allocated for good, and
    returns a new array of [n] strings. *)
Theorem reset_leaks_terminated_string :
  forall n i h,
    heap_ok h ->
    (i < n)%nat ->
    let leaked := match i with O => [] | _ => [S (next_block h) + i]%nat end in
    let h' := {| next_block := S (next_block h) + n;
                 live := (live h ++ leaked)%list |} in
    reset_command_array (terminate_argv i (fst (create_char_array n h))) n
      (snd (create_char_array n h))
    = Some (create_char_array n h')
    /\ heap_ok h'
    /\ slots (fst (create_char_array n h'))
       = map Some (seq (S (next_block h')) n).
Proof.
  intros n i h Hok Hi leaked h'. rewrite create_char_array_spec. cbn [fst snd].
  assert (Hok' : heap_ok h').
  { unfold heap_ok in *. subst h' leaked. cbn [next_block live].
    apply Forall_app. split.
    - eapply Forall_impl; [| exact Hok]. cbn. intros b Hb. lia.
    - destruct i; constructor; [lia | constructor]. }
  split; [| split; [exact Hok' | rewrite create_char_array_spec; reflexivity]].
  unfold reset_command_array. subst h' leaked. destruct i as [| i'].
  - cbn [terminate_argv]. rewrite (delete_untouched n h Hok), app_nil_r. reflexivity.
  - cbn [terminate_argv base slots]. rewrite (delete_after_store n (S i') h Hok Hi).
    reflexivity.
Qed.

Lemma create_then_delete_witness :
  delete_char_array (fst (create_char_array 3 {| next_block := 0; live := [] |})) 3
    (snd (create_char_array 3 {| next_block := 0; live := [] |}))
  = Some {| next_block := 4; live := [] |}.
Proof.
  apply (create_then_delete 3 {| next_block := 0; live := [] |}). constructor.
Defined.

Lemma reset_leaks_terminated_string_witness :
  reset_command_array
    (terminate_argv 2 (fst (create_char_array 4 {| next_block := 0; live := [] |})))
    4 (snd (create_char_array 4 {| next_block := 0; live := [] |}))
  = Some (create_char_array 4 {| next_block := 5; live := [3] |}).
Proof.
  refine (proj1 (reset_leaks_terminated_string 4 2
                   {| next_block := 0; live := [] |} _ _)).
  - constructor.
  - lia.
Defined.

End CommandsArray.
